(** * Skupper-X management controller: certificate pipeline, API server and
      synchronization protocol

    A shallow embedding of three source files of the management controller:

    - the certificate module (the two self-rescheduling workers
      [processNewNetworks] and [processCertificateRequests]);
    - the API server ([listInvitations], [addHostToAccessPoint] and the
      loop of [postBackboneIngress] that calls it);
    - the synchronization protocol (message constructors and
      [DispatchMessage]);

    together with the relational schema the SQL statements run against.

    Conventions.  Timestamps are JavaScript time values (milliseconds since
    the epoch, [Date.getTime()]) held in [Z]; a column whose NULL the
    sources can meet is an [option].  Every SQL text that occurs in the sources is one constructor
    of [Stmt], with its meaning on the tables given by [exec].  The store
    may reject any statement: the oracle [fails] says which ones, so that
    every [catch] and [finally] path of the sources can be exercised. *)

From Stdlib Require Import ZArith NArith List String Ascii DecimalString Bool Lia.
Import ListNotations.

Open Scope string_scope.
Open Scope list_scope.
Open Scope Z_scope.

Set Implicit Arguments.

(** ** Schema *)

(** UUID and text keys are strings, as the driver returns them. *)
Definition uuid := string.
Definition timestamp := Z.

Inductive CertificateRequestType :=
| interiorRouter
| vanCA
| memberClaim
| vanSite.

Record TlsCertificate := mkTlsCertificate {
  tc_Id : uuid;
  tc_IsServiceRoot : bool;
  tc_IsCA : bool;
  tc_SecretName : string;
  tc_SignedBy : option uuid;
  tc_Expiration : option timestamp
}.

(** [CertificateRequests].  [Processing] is read and written by
    [processCertificateRequests]; the schema file does not declare it, so
    it is a plain boolean that a freshly inserted row holds as [false]. *)
Record CertificateRequest := mkCertificateRequest {
  cr_Id : uuid;
  cr_RequestType : CertificateRequestType;
  cr_CreatedTime : option timestamp;
  cr_RequestTime : option timestamp;
  cr_ExpireTime : option timestamp;
  cr_InteriorRouter : option string;
  cr_ApplicationNetwork : option uuid;
  cr_Invitation : option uuid;
  cr_Site : option uuid;
  cr_Processing : bool
}.

(** [MemberInvitations].  [Name], [Lifecycle] and [Failure] are the
    columns [listInvitations] selects; the schema file does not declare
    them, so each is held as the text the driver returns, or NULL. *)
Record MemberInvitation := mkMemberInvitation {
  mi_Id : uuid;
  mi_label : string;
  mi_JoinDeadline : timestamp;
  mi_MemberClass : option uuid;
  mi_MemberOf : option uuid;
  mi_ClaimCertificate : option uuid;
  mi_InstanceLimit : Z;
  mi_InstanceCount : Z;
  mi_Name : option string;
  mi_Lifecycle : option string;
  mi_Failure : option string
}.

(** A row of [SELECT Id, Name, Lifecycle, Failure FROM MemberInvitations]. *)
Record InvitationRow := mkInvitationRow {
  row_id : uuid;
  row_name : option string;
  row_lifecycle : option string;
  row_failure : option string
}.

Definition invitation_row (i : MemberInvitation) : InvitationRow :=
  mkInvitationRow (mi_Id i) (mi_Name i) (mi_Lifecycle i) (mi_Failure i).

(** [InteriorSites] and [BackboneAccessPoints], with the columns
    [addHostToAccessPoint] reads and writes. *)
Record InteriorSite := mkInteriorSite {
  is_Id : string;
  is_ManagementAccess : option uuid;
  is_MemberAccess : option uuid;
  is_PeerAccess : option uuid
}.

Record BackboneAccessPoint := mkBackboneAccessPoint {
  ap_Id : uuid;
  ap_Hostname : option string;
  ap_Port : option string;
  ap_Lifecycle : string
}.

(** ** Exceptions *)

Inductive Exn :=
| QueryError (reason : string)   (* a rejected [client.query] *)
| TypeError (message : string)   (* a member access on [null] *)
| Error (message : string).      (* [throw Error(...)] *)

(** How a call ends: it returns a value or throws. *)
Inductive Result (A : Type) :=
| Ok (a : A)
| Throw (e : Exn).

Arguments Throw {A} e.

Section Controller.

(** The driver's value for an [interval] column (null included), and the
    two functions of [db.js] and [config.js] that the certificate module
    calls on it; neither file is part of the sources.
    [IntervalMilliseconds] is taken to return a number of milliseconds for
    every value. *)
Variable interval : Type.
Variable IntervalMilliseconds : interval -> Z.
Variable DefaultCaExpiration : interval.

(** [ApplicationNetworks], with the [OperStatus] column the certificate
    module filters on and advances. *)
Record ApplicationNetwork := mkApplicationNetwork {
  an_Id : uuid;
  an_Name : string;
  an_Owner : option Z;
  an_CertificateAuthority : option uuid;
  an_StartTime : option timestamp;
  an_EndTime : option timestamp;
  an_DeleteDelay : interval;
  an_OperStatus : string
}.

Record Tables := mkTables {
  ApplicationNetworks : list ApplicationNetwork;
  CertificateRequests : list CertificateRequest;
  TlsCertificates : list TlsCertificate;
  MemberInvitations : list MemberInvitation;
  InteriorSites : list InteriorSite;
  BackboneAccessPoints : list BackboneAccessPoint
}.

Definition with_ApplicationNetworks (l : list ApplicationNetwork) (t : Tables) : Tables :=
  mkTables l (CertificateRequests t) (TlsCertificates t) (MemberInvitations t)
           (InteriorSites t) (BackboneAccessPoints t).

Definition with_CertificateRequests (l : list CertificateRequest) (t : Tables) : Tables :=
  mkTables (ApplicationNetworks t) l (TlsCertificates t) (MemberInvitations t)
           (InteriorSites t) (BackboneAccessPoints t).

Definition with_BackboneAccessPoints (l : list BackboneAccessPoint) (t : Tables) : Tables :=
  mkTables (ApplicationNetworks t) (CertificateRequests t) (TlsCertificates t)
           (MemberInvitations t) (InteriorSites t) l.


(** ** The world a unit of work runs in *)

Inductive Worker :=
| NewNetworksWorker
| CertificateRequestsWorker.

Inductive LogLine :=
| LogNewNetwork (name : string)
| LogRollbackNewNetwork (err : Exn)
| LogProcessingRequest (id : uuid) (requesttype : CertificateRequestType)
| LogRollbackCertRequest (err : Exn)
| LogHostAddFailed (err : Exn).

Inductive ResEvent :=
| ResSend (rows : list InvitationRow)
| ResStatus (code : Z)
| ResEnd.

Record World := mkWorld {
  store : Tables;                 (* the committed rows *)
  txn : option Tables;            (* the rows as the client's open transaction sees them *)
  leased : nat;                   (* pooled clients acquired and not yet released *)
  timers : list (Worker * Z);     (* [setTimeout] calls, latest first *)
  logs : list LogLine;            (* [Log] calls, latest first *)
  res : list ResEvent             (* calls on the HTTP response, latest first *)
}.

Definition with_store (t : Tables) (w : World) : World :=
  mkWorld t (txn w) (leased w) (timers w) (logs w) (res w).
Definition with_txn (o : option Tables) (w : World) : World :=
  mkWorld (store w) o (leased w) (timers w) (logs w) (res w).
Definition with_leased (n : nat) (w : World) : World :=
  mkWorld (store w) (txn w) n (timers w) (logs w) (res w).
Definition with_timers (l : list (Worker * Z)) (w : World) : World :=
  mkWorld (store w) (txn w) (leased w) l (logs w) (res w).
Definition with_logs (l : list LogLine) (w : World) : World :=
  mkWorld (store w) (txn w) (leased w) (timers w) l (res w).
Definition with_res (l : list ResEvent) (w : World) : World :=
  mkWorld (store w) (txn w) (leased w) (timers w) (logs w) l.

(** The rows a statement of the client sees: those of its open
    transaction, or the committed ones outside a transaction. *)
Definition view (w : World) : Tables :=
  match txn w with
  | Some t => t
  | None => store w
  end.

(** A write inside a transaction stays in the transaction; outside one it
    is committed at once. *)
Definition write (t : Tables) (w : World) : World :=
  match txn w with
  | Some _ => with_txn (Some t) w
  | None => with_store t w
  end.

(** ** SQL statements *)

Inductive AccessRef :=
| ManagementAccess
| MemberAccess
| PeerAccess.

Definition access_column (ref : AccessRef) (s : InteriorSite) : option uuid :=
  match ref with
  | ManagementAccess => is_ManagementAccess s
  | MemberAccess => is_MemberAccess s
  | PeerAccess => is_PeerAccess s
  end.

Definition access_name (ref : AccessRef) : string :=
  match ref with
  | ManagementAccess => "ManagementAccess"
  | MemberAccess => "MemberAccess"
  | PeerAccess => "PeerAccess"
  end.

(** A row of the join in [addHostToAccessPoint]:
    [SELECT ${ref} as access_ref, BackboneAccessPoints.*]. *)
Record AccessRow := mkAccessRow {
  access_ref : uuid;
  hostname : option string;
  port : option string;
  lifecycle : string
}.

(** One constructor per SQL text of the sources, indexed by the type of
    [result.rows]. *)
Inductive Stmt : Type -> Type :=
| BEGIN : Stmt unit
| COMMIT : Stmt unit
| ROLLBACK : Stmt unit
  (* SELECT * FROM ApplicationNetworks WHERE OperStatus = 'new' LIMIT 1 *)
| SelectNewNetwork : Stmt (list ApplicationNetwork)
  (* INSERT INTO CertificateRequests(Id, RequestType, CreatedTime, RequestTime, ExpireTime,
     ApplicationNetwork) VALUES(gen_random_uuid(), 'vanCA', now(), $1, $2, $3) *)
| InsertVanCARequest (starttime : option timestamp) (expire_time : timestamp) (id : uuid) : Stmt unit
  (* UPDATE ApplicationNetworks SET OperStatus = 'cert_request_created' WHERE Id = $1 *)
| UpdateNetworkOperStatus (id : uuid) : Stmt unit
  (* SELECT * FROM CertificateRequests WHERE RequestTime <= now() and not Processing
     ORDER BY CreatedTime LIMIT 1 *)
| SelectActionableRequest : Stmt (list CertificateRequest)
  (* UPDATE CertificateRequests SET Processing = true WHERE Id = $1 *)
| UpdateRequestProcessing (id : uuid) : Stmt unit
  (* SELECT Id, Name, Lifecycle, Failure FROM MemberInvitations *)
| SelectInvitations : Stmt (list InvitationRow)
  (* SELECT ${ref} as access_ref, BackboneAccessPoints.* FROM InteriorSites
     JOIN BackboneAccessPoints ON ${ref} = BackboneAccessPoints.Id WHERE InteriorSites.Id = $1 *)
| SelectAccessPoint (ref : AccessRef) (bsid : string) : Stmt (list AccessRow)
  (* UPDATE BackboneAccessPoints SET Hostname = $1, Port=$2, Lifecycle='new' WHERE Id = $3 *)
| UpdateAccessPoint (host port : option string) (id : uuid) : Stmt unit.

Section Statements.

(** [now()] of the transaction and the value [gen_random_uuid()] yields
    for the one row a pass may insert. *)
Variable now : timestamp.
Variable gen_random_uuid : uuid.

Definition is_new (n : ApplicationNetwork) : bool :=
  (an_OperStatus n =? "new")%string.

Definition set_OperStatus (status : string) (n : ApplicationNetwork) : ApplicationNetwork :=
  mkApplicationNetwork (an_Id n) (an_Name n) (an_Owner n) (an_CertificateAuthority n)
                       (an_StartTime n) (an_EndTime n) (an_DeleteDelay n) status.

Definition set_Processing (b : bool) (r : CertificateRequest) : CertificateRequest :=
  mkCertificateRequest (cr_Id r) (cr_RequestType r) (cr_CreatedTime r) (cr_RequestTime r)
                       (cr_ExpireTime r) (cr_InteriorRouter r) (cr_ApplicationNetwork r)
                       (cr_Invitation r) (cr_Site r) b.

(** The row the [INSERT] of [processNewNetworks] adds. *)
Definition vanCA_request (starttime : option timestamp) (expire_time : timestamp)
           (network : uuid) : CertificateRequest :=
  mkCertificateRequest gen_random_uuid vanCA (Some now) starttime (Some expire_time)
                       None (Some network) None None false.

(** [RequestTime <= now() and not Processing]: a comparison with NULL is
    not true, so a request without a [RequestTime] is not selected. *)
Definition actionable (r : CertificateRequest) : bool :=
  match cr_RequestTime r with
  | Some t => (t <=? now) && negb (cr_Processing r)
  | None => false
  end.

(** [ORDER BY CreatedTime]: ascending, NULLs last. *)
Definition created_le (a b : option timestamp) : bool :=
  match a, b with
  | Some x, Some y => x <=? y
  | Some _, None => true
  | None, Some _ => false
  | None, None => true
  end.

Fixpoint insert_by_created (r : CertificateRequest) (l : list CertificateRequest)
  : list CertificateRequest :=
  match l with
  | [] => [r]
  | x :: l' =>
      if created_le (cr_CreatedTime r) (cr_CreatedTime x)
      then r :: x :: l'
      else x :: insert_by_created r l'
  end.

Fixpoint order_by_created (l : list CertificateRequest) : list CertificateRequest :=
  match l with
  | [] => []
  | r :: l' => insert_by_created r (order_by_created l')
  end.

(** [WHERE OperStatus = 'new' LIMIT 1]: some row that qualifies; the
    embedding takes the first in table order. *)
Definition select_new_network (t : Tables) : list ApplicationNetwork :=
  firstn 1 (filter is_new (ApplicationNetworks t)).

(** [WHERE RequestTime <= now() and not Processing ORDER BY CreatedTime
    LIMIT 1] *)
Definition select_actionable_request (t : Tables) : list CertificateRequest :=
  firstn 1 (order_by_created (filter actionable (CertificateRequests t))).

(** Whether the primary key [id] is taken in [CertificateRequests]. *)
Definition request_id_taken (id : uuid) (t : Tables) : bool :=
  existsb (fun r => (cr_Id r =? id)%string) (CertificateRequests t).

Definition join_access (ref : AccessRef) (bsid : string) (t : Tables) : list AccessRow :=
  flat_map
    (fun s =>
       if (is_Id s =? bsid)%string then
         match access_column ref s with
         | Some a =>
             map (fun p => mkAccessRow a (ap_Hostname p) (ap_Port p) (ap_Lifecycle p))
                 (filter (fun p => (ap_Id p =? a)%string) (BackboneAccessPoints t))
         | None => []
         end
       else [])
    (InteriorSites t).

Definition set_access (host port : option string) (p : BackboneAccessPoint)
  : BackboneAccessPoint :=
  mkBackboneAccessPoint (ap_Id p) host port "new".

(** The meaning of a statement on the rows it sees: the result rows and
    the rows afterwards, or the error the store raises.  [Id] is a primary
    key, so inserting a second row with the same [Id] is an error. *)
Definition exec {R : Type} (s : Stmt R) (t : Tables) : Exn + (R * Tables) :=
  match s in Stmt R return Exn + (R * Tables) with
  | BEGIN => inr (tt, t)
  | COMMIT => inr (tt, t)
  | ROLLBACK => inr (tt, t)
  | SelectNewNetwork =>
      inr (select_new_network t, t)
  | InsertVanCARequest starttime expire_time id =>
      if request_id_taken gen_random_uuid t
      then inl (QueryError "duplicate key value violates unique constraint")
      else inr (tt, with_CertificateRequests
                      (CertificateRequests t ++ [vanCA_request starttime expire_time id]) t)
  | UpdateNetworkOperStatus id =>
      inr (tt, with_ApplicationNetworks
                 (map (fun n => if (an_Id n =? id)%string
                                then set_OperStatus "cert_request_created" n
                                else n)
                      (ApplicationNetworks t)) t)
  | SelectActionableRequest =>
      inr (select_actionable_request t, t)
  | UpdateRequestProcessing id =>
      inr (tt, with_CertificateRequests
                 (map (fun r => if (cr_Id r =? id)%string then set_Processing true r else r)
                      (CertificateRequests t)) t)
  | SelectInvitations =>
      inr (map invitation_row (MemberInvitations t), t)
  | SelectAccessPoint ref bsid =>
      inr (join_access ref bsid t, t)
  | UpdateAccessPoint host port id =>
      inr (tt, with_BackboneAccessPoints
                 (map (fun p => if (ap_Id p =? id)%string then set_access host port p else p)
                      (BackboneAccessPoints t)) t)
  end.

End Statements.

(** ** Units of work

    A computation reads and writes the function's mutable locals [L] and
    the world, and either returns or throws; what it did before a throw
    stays done, as in JavaScript. *)

Definition M (L A : Type) : Type := L * World -> Result A * (L * World).

Definition ret {L A : Type} (a : A) : M L A :=
  fun s => (Ok a, s).

Definition bind {L A B : Type} (c : M L A) (k : A -> M L B) : M L B :=
  fun s =>
    match c s with
    | (Ok a, s') => k a s'
    | (Throw e, s') => (Throw e, s')
    end.

Definition throw {L A : Type} (e : Exn) : M L A :=
  fun s => (Throw e, s).

Notation "x <- c ;; k" := (bind c (fun x => k))
  (at level 61, c at next level, right associativity).
Notation "c ;; k" := (bind c (fun _ => k))
  (at level 61, right associativity).

Definition get_local {L : Type} : M L L :=
  fun s => (Ok (fst s), s).

Definition set_local {L : Type} (l : L) : M L unit :=
  fun s => (Ok tt, (l, snd s)).

Definition modify_world {L : Type} (f : World -> World) : M L unit :=
  fun s => (Ok tt, (fst s, f (snd s))).

(** [try { body } catch (err) { handler } finally { final }]: [final] runs
    on every path, and an exception of [handler] or [final] leaves the
    statement. *)
Definition try_catch_finally {L A : Type}
           (body : M L A) (handler : Exn -> M L A) (final : M L unit) : M L A :=
  fun s =>
    let '(r, s1) :=
      match body s with
      | (Ok a, s') => (Ok a, s')
      | (Throw e, s') => handler e s'
      end in
    match final s1 with
    | (Ok _, s2) => (r, s2)
    | (Throw e, s2) => (Throw e, s2)
    end.

Section Units.

Variable now : timestamp.
Variable gen_random_uuid : uuid.

(** The failures of the environment in one unit of work: whether the pool
    hands out a client, and which statements the store rejects. *)
Variable pool_fails : bool.
Variable fails : forall R : Type, Stmt R -> bool.

(** [await db.ClientFromPool()] *)
Definition ClientFromPool {L : Type} : M L unit :=
  if pool_fails then throw (Error "no client available")
  else modify_world (fun w => with_leased (S (leased w)) w).

(** [client.release()] *)
Definition release {L : Type} : M L unit :=
  modify_world (fun w => with_leased (Nat.pred (leased w)) w).

Definition setTimeout {L : Type} (f : Worker) (delay : Z) : M L unit :=
  modify_world (fun w => with_timers ((f, delay) :: timers w) w).

Definition Log {L : Type} (line : LogLine) : M L unit :=
  modify_world (fun w => with_logs (line :: logs w) w).

Definition res_do {L : Type} (e : ResEvent) : M L unit :=
  modify_world (fun w => with_res (e :: res w) w).

(** What a statement the store accepts does to the session: [BEGIN] opens
    a transaction on the committed rows, [COMMIT] makes the transaction's
    rows the committed ones, [ROLLBACK] drops them. *)
Definition run {R : Type} (s : Stmt R) (w : World) : Exn + (R * World) :=
  match s in Stmt R return Exn + (R * World) with
  | BEGIN => inr (tt, with_txn (Some (view w)) w)
  | COMMIT => inr (tt, with_txn None (with_store (view w) w))
  | ROLLBACK => inr (tt, with_txn None w)
  | s' =>
      match exec now gen_random_uuid s' (view w) with
      | inl e => inl e
      | inr (r, t) => inr (r, write t w)
      end
  end.

(** [await client.query(...)] *)
Definition query {L R : Type} (s : Stmt R) : M L R :=
  fun st =>
    if fails s then (Throw (QueryError "statement rejected"), st)
    else
      match run s (snd st) with
      | inl e => (Throw e, st)
      | inr (r, w) => (Ok r, (fst st, w))
      end.

(** *** The certificate module *)

(** The [try] block of [processNewNetworks]. *)
Definition processNewNetworks_try : M Z unit :=
  query BEGIN ;;
  result <- query SelectNewNetwork ;;
  match result with
  | [row] =>
      Log (LogNewNetwork (an_Name row)) ;;
      expire_time <-
        match an_EndTime row with
        | Some endtime =>
            ret (endtime + IntervalMilliseconds (an_DeleteDelay row))
        | None =>
            match an_StartTime row with
            | Some starttime =>
                ret (starttime + IntervalMilliseconds DefaultCaExpiration)
            | None => throw (TypeError "Cannot read properties of null (reading 'getTime')")
            end
        end ;;
      query (InsertVanCARequest (an_StartTime row) expire_time (an_Id row)) ;;
      query (UpdateNetworkOperStatus (an_Id row)) ;;
      set_local 0
  | _ => ret tt
  end ;;
  query COMMIT.

Definition processNewNetworks_catch (err : Exn) : M Z unit :=
  Log (LogRollbackNewNetwork err) ;;
  query ROLLBACK ;;
  set_local 10000.

Definition processNewNetworks_finally : M Z unit :=
  release ;;
  reschedule_delay <- get_local ;;
  setTimeout NewNetworksWorker reschedule_delay.

(** One pass of the network-intake worker; the local is
    [reschedule_delay]. *)
Definition processNewNetworks (w : World) : Result unit * World :=
  let '(r, (_, w')) :=
    (ClientFromPool ;;
     try_catch_finally processNewNetworks_try
                       processNewNetworks_catch
                       processNewNetworks_finally) (2000, w) in
  (r, w').

(** The pass throws [e] inside its [try] block, which it enters holding
    the client. *)
Definition processNewNetworks_throws (w : World) (e : Exn) : Prop :=
  exists st,
    processNewNetworks_try (2000, with_leased (S (leased w)) w) = (Throw e, st).

(** The [try] block of [processCertificateRequests]. *)
Definition processCertificateRequests_try : M Z unit :=
  query BEGIN ;;
  result <- query SelectActionableRequest ;;
  match result with
  | [row] =>
      Log (LogProcessingRequest (cr_Id row) (cr_RequestType row)) ;;
      query (UpdateRequestProcessing (cr_Id row)) ;;
      set_local 0
  | _ => ret tt
  end ;;
  query COMMIT.

Definition processCertificateRequests_catch (err : Exn) : M Z unit :=
  Log (LogRollbackCertRequest err) ;;
  query ROLLBACK ;;
  set_local 10000.

Definition processCertificateRequests_finally : M Z unit :=
  release ;;
  reschedule_delay <- get_local ;;
  setTimeout CertificateRequestsWorker reschedule_delay.

(** One pass of the fulfillment worker. *)
Definition processCertificateRequests (w : World) : Result unit * World :=
  let '(r, (_, w')) :=
    (ClientFromPool ;;
     try_catch_finally processCertificateRequests_try
                       processCertificateRequests_catch
                       processCertificateRequests_finally) (2000, w) in
  (r, w').

Definition processCertificateRequests_throws (w : World) (e : Exn) : Prop :=
  exists st,
    processCertificateRequests_try (2000, with_leased (S (leased w)) w) = (Throw e, st).

(** *** The API server *)

(** [listInvitations(res)]: no [try], so nothing after a throw runs. *)
Definition listInvitations (w : World) : Result unit * World :=
  let '(r, (_, w')) :=
    (ClientFromPool ;;
     result <- query SelectInvitations ;;
     res_do (ResSend result) ;;
     res_do (ResStatus 200) ;;
     res_do ResEnd ;;
     release) (tt, w) in
  (r, w').

(** JavaScript truthiness of a nullable text column. *)
Definition truthy (o : option string) : bool :=
  match o with
  | Some s => negb (s =? "")%string
  | None => false
  end.

(** The [switch (key)] of [addHostToAccessPoint]. *)
Definition access_of_key (key : string) : option AccessRef :=
  if (key =? "skx-manage")%string then Some ManagementAccess
  else if (key =? "skx-member")%string then Some MemberAccess
  else if (key =? "skx-peer")%string then Some PeerAccess
  else None.

Definition addHostToAccessPoint_try (bsid key : string) (host prt : option string)
  : M Z unit :=
  query BEGIN ;;
  ref <- match access_of_key key with
         | Some ref => ret ref
         | None => throw (Error ("Invalid ingress key: " ++ key))
         end ;;
  result <- query (SelectAccessPoint ref bsid) ;;
  match result with
  | [access] =>
      (if truthy (hostname access)
       then throw (Error ("Referenced access (" ++ access_ref access
                            ++ ") already has a hostname"))
       else ret tt) ;;
      (if negb (lifecycle access =? "partial")%string
       then throw (Error ("Referenced access (" ++ access_ref access ++ ") has lifecycle "
                            ++ lifecycle access ++ ", expected partial"))
       else ret tt) ;;
      query (UpdateAccessPoint host prt (access_ref access)) ;;
      query COMMIT
  | _ => throw (Error ("Access point not found for site " ++ bsid
                         ++ " (" ++ access_name ref ++ ")"))
  end.

Definition addHostToAccessPoint_catch (err : Exn) : M Z unit :=
  query ROLLBACK ;;
  Log (LogHostAddFailed err) ;;
  set_local 0.

(** [addHostToAccessPoint(bsid, key, hostname, port)]; the local is
    [retval]. *)
Definition addHostToAccessPoint (bsid key : string) (host prt : option string) (w : World)
  : Result Z * World :=
  let '(r, (_, w')) :=
    (ClientFromPool ;;
     try_catch_finally (addHostToAccessPoint_try bsid key host prt)
                       addHostToAccessPoint_catch
                       release ;;
     get_local) (1, w) in
  (r, w').

End Units.

End Controller.

Arguments BEGIN {interval}.
Arguments COMMIT {interval}.
Arguments ROLLBACK {interval}.

(** ** The synchronization protocol *)

(** The values a field of a decoded message or a constructor argument may
    hold: the data values of JavaScript, as a decoder yields them, and
    [undefined].  A number is an integer here (a fraction, NaN or an
    infinity compares with 1 as the integers other than 1 do); a string
    is held as its UTF-8 bytes; an array holds values; an object is a
    plain one, with no method of its own. *)
#[warnings="-register-all"]
Inductive value :=
| VUndefined
| VNull
| VBool (b : bool)
| VNum (n : Z)
| VStr (s : string)
| VArr (elements : list value)
| VObj (props : list (string * string)).

(** [Array.prototype.join] with its default separator. *)
Fixpoint join (l : list string) : string :=
  match l with
  | [] => ""
  | s :: rest =>
      match rest with
      | [] => s
      | _ :: _ => s ++ "," ++ join rest
      end
  end.

(** [ToString], which a template literal applies to a substitution, and
    through which an array or a plain object becomes a primitive: an array
    joins its elements, [undefined] and [null] among them giving the empty
    string. *)
Fixpoint ToString (v : value) : string :=
  match v with
  | VUndefined => "undefined"
  | VNull => "null"
  | VBool b => if b then "true" else "false"
  | VNum n => NilZero.string_of_int (Z.to_int n)
  | VStr s => s
  | VArr elements =>
      join (map (fun e => match e with
                          | VUndefined | VNull => ""
                          | _ => ToString e
                          end) elements)
  | VObj _ => "[object Object]"
  end.

(** *** [StringToNumber]

    The conversion [==] and [!=] apply to a string that meets a number:
    white space is trimmed, the empty string is 0, and what is left must be
    a decimal literal (sign, digits, fraction, exponent), [Infinity] with
    a sign, or a binary, octal or hexadecimal integer; anything else is
    [NaN]. *)

Definition bytes_of (s : string) : list N :=
  map N_of_ascii (list_ascii_of_string s).

(** WhiteSpace and LineTerminator: TAB, LF, VT, FF, CR, SP; U+00A0;
    U+1680; U+2000 to U+200A, U+2028, U+2029, U+202F; U+205F; U+3000;
    U+FEFF. *)
Definition white_space_1 (c : N) : bool :=
  ((c =? 9) || (c =? 10) || (c =? 11) || (c =? 12) || (c =? 13) || (c =? 32))%N.

Definition white_space_2 (c1 c2 : N) : bool :=
  ((c1 =? 194) && (c2 =? 160))%N.

Definition white_space_3 (c1 c2 c3 : N) : bool :=
  (((c1 =? 225) && (c2 =? 154) && (c3 =? 128))
   || ((c1 =? 226) && (c2 =? 128)
       && (((128 <=? c3) && (c3 <=? 138)) || (c3 =? 168) || (c3 =? 169) || (c3 =? 175)))
   || ((c1 =? 226) && (c2 =? 129) && (c3 =? 159))
   || ((c1 =? 227) && (c2 =? 128) && (c3 =? 128))
   || ((c1 =? 239) && (c2 =? 187) && (c3 =? 191)))%N.

Fixpoint skip_white_space (l : list N) : list N :=
  match l with
  | [] => []
  | c1 :: r1 =>
      if white_space_1 c1 then skip_white_space r1
      else
        match r1 with
        | [] => l
        | c2 :: r2 =>
            if white_space_2 c1 c2 then skip_white_space r2
            else
              match r2 with
              | [] => l
              | c3 :: r3 =>
                  if white_space_3 c1 c2 c3 then skip_white_space r3 else l
              end
        end
  end.

Definition all_white_space (l : list N) : bool :=
  match skip_white_space l with
  | [] => true
  | _ :: _ => false
  end.

(** The digit [c] stands for in a base, [0-9a-fA-F]. *)
Definition digit (base : N) (c : N) : option Z :=
  let d := (if (48 <=? c) && (c <=? 57) then Some (c - 48)
            else if (97 <=? c) && (c <=? 102) then Some (c - 87)
            else if (65 <=? c) && (c <=? 70) then Some (c - 55)
            else None)%N in
  match d with
  | Some d => if (d <? base)%N then Some (Z.of_N d) else None
  | None => None
  end.

(** The digits at the front of [l]: their value on top of [value], their
    number on top of [count], and what follows them. *)
Fixpoint digits (base : N) (l : list N) (value count : Z) : Z * Z * list N :=
  match l with
  | [] => (value, count, [])
  | c :: r =>
      match digit base c with
      | Some d => digits base r (value * Z.of_N base + d) (count + 1)
      | None => (value, count, l)
      end
  end.

(** The mathematical value of a string: [mantissa * 10 ^ exponent] with a
    sign, an infinity, or none. *)
Inductive StringNumber :=
| NotANumber
| Infinite (negative : bool)
| Finite (negative : bool) (mantissa exponent : Z).

Definition sign (l : list N) : bool * list N :=
  match l with
  | c :: r =>
      if (c =? 43)%N then (false, r) else if (c =? 45)%N then (true, r) else (false, l)
  | [] => (false, l)
  end.

(** [e] or [E], a sign, digits; without digits there is no exponent part. *)
Definition ExponentPart (l : list N) : Z * list N :=
  match l with
  | c :: r =>
      if ((c =? 101) || (c =? 69))%N then
        let '(negative, r') := sign r in
        let '(e, count, rest) := digits 10 r' 0 0 in
        if count =? 0 then (0, l) else (if negative then - e else e, rest)
      else (0, l)
  | [] => (0, l)
  end.

(** Digits, a point, digits, an exponent part: at least one digit. *)
Definition StrUnsignedDecimalLiteral (l : list N) : option (Z * Z * list N) :=
  let '(whole, n1, r1) := digits 10 l 0 0 in
  let '(mantissa, n2, r2) :=
    match r1 with
    | c :: r => if (c =? 46)%N then digits 10 r whole 0 else (whole, 0, r1)
    | [] => (whole, 0, r1)
    end in
  if n1 + n2 =? 0 then None
  else let '(e, r3) := ExponentPart r2 in Some (mantissa, e - n2, r3).

(** [0x], [0o] or [0b], in either case, and digits of that base. *)
Definition NonDecimalIntegerLiteral (l : list N) : option (Z * list N) :=
  match l with
  | c0 :: c :: r =>
      if (c0 =? 48)%N then
        let base := (if (c =? 120) || (c =? 88) then 16
                     else if (c =? 111) || (c =? 79) then 8
                     else if (c =? 98) || (c =? 66) then 2
                     else 0)%N in
        let '(v, count, rest) := digits base r 0 0 in
        if count =? 0 then None else Some (v, rest)
      else None
  | _ => None
  end.

Fixpoint strip_prefix (p l : list N) : option (list N) :=
  match p, l with
  | [], _ => Some l
  | a :: p', b :: l' => if (a =? b)%N then strip_prefix p' l' else None
  | _ :: _, [] => None
  end.

Definition StringToNumber (s : string) : StringNumber :=
  match skip_white_space (bytes_of s) with
  | [] => Finite false 0 0
  | l =>
      match NonDecimalIntegerLiteral l with
      | Some (v, rest) => if all_white_space rest then Finite false v 0 else NotANumber
      | None =>
          let '(negative, l') := sign l in
          match strip_prefix (bytes_of "Infinity") l' with
          | Some rest => if all_white_space rest then Infinite negative else NotANumber
          | None =>
              match StrUnsignedDecimalLiteral l' with
              | Some (m, e, rest) =>
                  if all_white_space rest then Finite negative m e else NotANumber
              | None => NotANumber
              end
          end
      end
  end.

Definition VERSION : Z := 1.
Definition OP_HEARTBEAT : string := "HB".
Definition OP_GET : string := "GET".
Definition OP_CLAIM : string := "CLAIM".

(** The Number a string converts to is [VERSION], the number 1: the
    value of the string, rounded to the nearest double with ties to even,
    is 1, which is so from [1 - 2^-54] to [1 + 2^-53]. *)
Definition converts_to_VERSION (x : StringNumber) : bool :=
  match x with
  | Finite false m e =>
      if 0 <=? e then m * 10 ^ e =? VERSION
      else
        let d := 10 ^ (- e) in
        ((2 ^ 54 - 1) * d <=? 2 ^ 54 * m) && (2 ^ 53 * m <=? (2 ^ 53 + 1) * d)
  | _ => false
  end.

(** [x == VERSION], the loose comparison of a value with the number 1: a
    number is compared as it is, a boolean and a string are converted to
    numbers, an array or an object is converted to a string first, and
    [undefined] and [null] equal no number.  [x != VERSION] is its
    negation. *)
Definition loosely_equal_VERSION (x : value) : bool :=
  match x with
  | VUndefined | VNull => false
  | VBool b => (if b then 1 else 0) =? VERSION
  | VNum n => n =? VERSION
  | VStr s => converts_to_VERSION (StringToNumber s)
  | VArr _ | VObj _ => converts_to_VERSION (StringToNumber (ToString x))
  end.

(** [x === s] for a string [s], the comparison of a [case] label: no
    conversion. *)
Definition strictly_equal (x : value) (s : string) : bool :=
  match x with
  | VStr x' => (x' =? s)%string
  | _ => false
  end.

(** A decoded message body: an object, whose fields hold any value; a
    field the object does not have reads as [VUndefined] (so does every
    field of a body that is a number, a string or a boolean; the body is
    taken not to be null or undefined, on which the first member access
    throws).  The header fields are values like the others: [!=]
    converts the version before it compares, the [case] labels compare
    the op without conversion. *)
Record Envelope := mkEnvelope {
  version : value;
  op : value;
  site : value;
  hashset : value;
  address : value;
  objectname : value;
  claim : value;
  name : value
}.

(** [function(fromSite, hashSet, address="")]: a default parameter stands
    in for an argument that is omitted or [undefined]. *)
Definition default_parameter (default argument : value) : value :=
  match argument with
  | VUndefined => default
  | _ => argument
  end.

Definition Heartbeat (fromSite hashSet address : value) : Envelope :=
  let address := default_parameter (VStr "") address in
  mkEnvelope (VNum VERSION) (VStr OP_HEARTBEAT) fromSite hashSet address
             VUndefined VUndefined VUndefined.

Definition GetObject (fromSite objectName : value) : Envelope :=
  mkEnvelope (VNum VERSION) (VStr OP_GET) fromSite VUndefined VUndefined objectName
             VUndefined VUndefined.

Definition AssertClaim (claimId name : value) : Envelope :=
  mkEnvelope (VNum VERSION) (VStr OP_CLAIM) VUndefined VUndefined VUndefined VUndefined
             claimId name.

(** A handler invocation, with the arguments it was given. *)
Inductive Call :=
| OnHeartbeat (site hashset address : value)
| OnSolicit (args : list value)
| OnGet (site objectname : value)
| OnClaim (claim name : value).

(** A handler returns ([None]) or throws. *)
Definition Handler3 := value -> value -> value -> option Exn.
Definition Handler2 := value -> value -> option Exn.
Definition HandlerN := list value -> option Exn.

Definition invoke (c : Call) (outcome : option Exn) : list Call * Result unit :=
  ([c], match outcome with
        | None => Ok tt
        | Some e => Throw e
        end).

(** [DispatchMessage(body, onHeartbeat, onSolicit, onGet, onClaim)]: the
    handler invocations made, and how the call ends. *)
Definition DispatchMessage (body : Envelope) (onHeartbeat : Handler3) (onSolicit : HandlerN)
           (onGet : Handler2) (onClaim : Handler2) : list Call * Result unit :=
  if negb (loosely_equal_VERSION (version body)) then
    ([], Throw (Error ("Unsupported protocol version " ++ ToString (version body))))
  else if strictly_equal (op body) OP_HEARTBEAT then
    invoke (OnHeartbeat (site body) (hashset body) (address body))
           (onHeartbeat (site body) (hashset body) (address body))
  else if strictly_equal (op body) OP_GET then
    invoke (OnGet (site body) (objectname body)) (onGet (site body) (objectname body))
  else if strictly_equal (op body) OP_CLAIM then
    invoke (OnClaim (claim body) (name body)) (onClaim (claim body) (name body))
  else
    ([], Throw (Error ("Unknown op-code " ++ ToString (op body)))).

(** Handlers that return. *)
Definition returns3 : Handler3 := fun _ _ _ => None.
Definition returns2 : Handler2 := fun _ _ => None.
Definition returnsN : HandlerN := fun _ => None.

(** ** Invitation admission *)

Definition within_limit (i : MemberInvitation) : Prop :=
  mi_InstanceCount i <= mi_InstanceLimit i.

Definition claimable (now : timestamp) (i : MemberInvitation) : bool :=
  (now <=? mi_JoinDeadline i) && (mi_InstanceCount i <? mi_InstanceLimit i).

Definition count_instance (i : MemberInvitation) : MemberInvitation :=
  mkMemberInvitation (mi_Id i) (mi_label i) (mi_JoinDeadline i) (mi_MemberClass i)
                     (mi_MemberOf i) (mi_ClaimCertificate i) (mi_InstanceLimit i)
                     (mi_InstanceCount i + 1) (mi_Name i) (mi_Lifecycle i) (mi_Failure i).

(** Modelled from the spec: the handler of the [CLAIM] operation (the code
    behind [onClaim]) is not part of the sources.  Section 4.3 (a): a
    MemberInvitation may only produce a successful CLAIM while
    [now() <= JoinDeadline] and [InstanceCount < InstanceLimit],
    incrementing [InstanceCount] atomically with the claim.  [None] is a
    failure response, which changes no row. *)
Fixpoint CLAIM (now : timestamp) (claimId : uuid) (invitations : list MemberInvitation)
  : option (list MemberInvitation) :=
  match invitations with
  | [] => None
  | i :: rest =>
      if (mi_Id i =? claimId)%string then
        if claimable now i then Some (count_instance i :: rest) else None
      else
        match CLAIM now claimId rest with
        | Some rest' => Some (i :: rest')
        | None => None
        end
  end.

(** ** Statements of the specification *)

Section Specification.

Variable interval : Type.
Variable IntervalMilliseconds : interval -> Z.
Variable DefaultCaExpiration : interval.

(** Section 4.1, Worker A: if the network has a defined end time,
    expiration = end time + DeleteDelay; otherwise expiration = start time
    + a configured default CA lifetime.  Undefined when the network has
    neither time. *)
Definition ca_expiration (row : ApplicationNetwork interval) : option timestamp :=
  match an_EndTime row with
  | Some endtime => Some (endtime + IntervalMilliseconds (an_DeleteDelay row))
  | None =>
      match an_StartTime row with
      | Some starttime => Some (starttime + IntervalMilliseconds DefaultCaExpiration)
      | None => None
      end
  end.

(** What the specification says a fulfilling pass has done to request [r]
    by its commit: a TlsCertificate row has been inserted and the request
    row is gone. *)
Definition fulfilled_by_commit (before after : Tables interval) (r : CertificateRequest)
  : Prop :=
  (exists c, In c (TlsCertificates after) /\ ~ In c (TlsCertificates before))
  /\ (forall x, In x (CertificateRequests after) -> cr_Id x <> cr_Id r).

End Specification.

(** The op-codes: the strings 'HB', 'GET' and 'CLAIM'. *)
Definition known_op (o : value) : Prop :=
  o = VStr "HB" \/ o = VStr "GET" \/ o = VStr "CLAIM".

(** A message the version gate or the op-code switch rejects: its
    version is [!= 1], or its op is not one of the op-codes. *)
Definition rejected (body : Envelope) : Prop :=
  loosely_equal_VERSION (version body) = false \/ ~ known_op (op body).

(** ** Environments *)

(** The store accepts every statement. *)
Definition no_failure {interval : Type} (R : Type) (s : Stmt interval R) : bool :=
  false.

(** The store rejects every statement. *)
Definition store_down {interval : Type} (R : Type) (s : Stmt interval R) : bool :=
  true.

(** The store rejects the update of a network's status, and nothing else. *)
Definition fail_on_status_update {interval : Type} (R : Type) (s : Stmt interval R) : bool :=
  match s with
  | UpdateNetworkOperStatus _ _ => true
  | _ => false
  end.

(** The store rejects the claim of a request, and nothing else. *)
Definition fail_on_processing_update {interval : Type} (R : Type) (s : Stmt interval R)
  : bool :=
  match s with
  | UpdateRequestProcessing _ _ => true
  | _ => false
  end.

(** An instance of the driver's intervals: whole seconds. *)
Definition seconds_to_ms (s : Z) : Z := 1000 * s.
Definition days (n : Z) : Z := 86400 * n.

(** ** Scenarios *)

Module Scenario.

(** 2024-01-01T00:00Z and 2024-06-01T00:00Z as time values. *)
Definition t_2024_01_01 : timestamp := 1704067200000.
Definition t_2024_06_01 : timestamp := 1717200000000.

Definition open_net : ApplicationNetwork Z :=
  mkApplicationNetwork "net-1" "open" (Some 1) None (Some t_2024_01_01) None (days 0) "new".

Definition bounded_net : ApplicationNetwork Z :=
  mkApplicationNetwork "net-2" "bounded" (Some 1) None (Some t_2024_01_01)
                       (Some t_2024_06_01) (days 30) "new".

Definition request (id : uuid) (created : timestamp) (requested : timestamp)
  : CertificateRequest :=
  mkCertificateRequest id vanCA (Some created) (Some requested) None None (Some "net-1")
                       None None false.

Definition invitation (limit count : Z) : MemberInvitation :=
  mkMemberInvitation "inv-1" "edge" 5000 None (Some "net-1") None limit count
                     (Some "edge") (Some "ready") None.

Definition site : InteriorSite :=
  mkInteriorSite "bs-1" (Some "ap-manage") (Some "ap-member") (Some "ap-peer").

Definition access (id : uuid) (host : option string) (lc : string) : BackboneAccessPoint :=
  mkBackboneAccessPoint id host None lc.

Definition tables (nets : list (ApplicationNetwork Z)) (reqs : list CertificateRequest)
  : Tables Z :=
  mkTables nets reqs [] [invitation 2 0] [site]
           [access "ap-manage" None "partial"; access "ap-member" (Some "edge.example") "ready";
            access "ap-peer" None "new"].

Definition world (t : Tables Z) : World Z :=
  mkWorld t None 0 [] [] [].

(** 2024-03-01T00:00Z, the time of the passes. *)
Definition now : timestamp := 1709251200000.

(** A network with no end time, waiting for its certificate request. *)
Definition intake_world : World Z := world (tables [open_net] []).

(** Three requests that are due, stored out of creation order, and one
    created before them all that is due only in the future. *)
Definition r1 : CertificateRequest := request "req-1" 1000 2000.
Definition r2 : CertificateRequest := request "req-2" 2000 2000.
Definition r3 : CertificateRequest := request "req-3" 3000 3000.
Definition future : CertificateRequest := request "req-0" 500 (now + 1).

(** A network with neither a start nor an end time. *)
Definition timeless_net : ApplicationNetwork Z :=
  mkApplicationNetwork "net-3" "timeless" (Some 1) None None None (days 0) "new".

Definition queue_world : World Z := world (tables [] [r3; future; r1; r2]).

Definition pass (w : World Z) : World Z :=
  snd (processCertificateRequests now "unused" false no_failure w).

(** One request that is due, and no certificate. *)
Definition single_world : World Z := world (tables [] [r1]).

(** Two networks waiting for their certificate requests, beside a request
    that is already claimed. *)
Definition claimed : CertificateRequest :=
  mkCertificateRequest "req-9" vanCA (Some 100) (Some 200) None None (Some "net-0")
                       None None true.

Definition backlog_world : World Z := world (tables [open_net; bounded_net] [claimed]).

End Scenario.

Arguments select_new_network : simpl never.
Arguments select_actionable_request : simpl never.
Arguments request_id_taken : simpl never.
Arguments join_access : simpl never.

(** ** Runs of several units of work *)

Section Runs.

Variable interval : Type.
Variable IntervalMilliseconds : interval -> Z.
Variable DefaultCaExpiration : interval.

(** One firing of a worker's timer: the worker, the [now()] and the uuid
    of its transaction, and what fails during it. *)
Record Pass := mkPass {
  pass_worker : Worker;
  pass_now : timestamp;
  pass_uuid : uuid;
  pass_pool_fails : bool;
  pass_fails : forall R : Type, Stmt interval R -> bool
}.

Definition run_pass (p : Pass) (w : World interval) : World interval :=
  match pass_worker p with
  | NewNetworksWorker =>
      snd (processNewNetworks IntervalMilliseconds DefaultCaExpiration (pass_now p)
                              (pass_uuid p) (pass_pool_fails p) (pass_fails p) w)
  | CertificateRequestsWorker =>
      snd (processCertificateRequests (pass_now p) (pass_uuid p) (pass_pool_fails p)
                                      (pass_fails p) w)
  end.

(** The passes of the two workers, in the order their timers fire. *)
Definition run_passes (ps : list Pass) (w : World interval) : World interval :=
  fold_left (fun w p => run_pass p w) ps w.

(** Passes of the intake worker that meet no failure, one per uuid. *)
Definition intake_passes (now : timestamp) (ids : list uuid) : list Pass :=
  map (fun u => mkPass NewNetworksWorker now u false (@no_failure interval)) ids.

(** [n] passes of the fulfillment worker that meet no failure, at one
    time; the worker inserts no row, so the uuid is not used. *)
Definition fulfillment_passes (now : timestamp) (n : nat) : list Pass :=
  repeat (mkPass CertificateRequestsWorker now "" false (@no_failure interval)) n.

(** The requests the fulfillment worker may select at a time. *)
Definition due_requests (now : timestamp) (t : Tables interval) : list CertificateRequest :=
  filter (actionable now) (CertificateRequests t).

(** The networks waiting for their certificate request. *)
Definition new_networks (t : Tables interval) : list (ApplicationNetwork interval) :=
  filter (@is_new interval) (ApplicationNetworks t).

(** Request [r] is a committed row, and a row of the client's
    transaction when one is left open. *)
Definition request_kept (r : CertificateRequest) (w : World interval) : Prop :=
  In r (CertificateRequests (store w))
  /\ forall t, txn w = Some t -> In r (CertificateRequests t).

(** The value [obj] of an entry [[key, obj]] of [fields.ingresses]: null,
    or a value with members, given by what [obj.host] and [obj.port] read,
    as the driver sends it to the store: a text, or NULL ([None]) for a
    member that is absent or null. *)
Inductive IngressObject :=
| NullObject
| HostPort (host port : option string).

Record Ingress := mkIngress {
  ingress_key : string;
  ingress_obj : IngressObject
}.

Definition has_members (i : Ingress) : Prop :=
  ingress_obj i <> NullObject.

(** The loop of [postBackboneIngress]:
    [for (const [key, obj] of Object.entries(fields.ingresses))
       count += await addHostToAccessPoint(bsid, key, obj.host, obj.port);]
    started with the local [count].  Reading [obj.host] of a null [obj]
    throws before the call is made.  Each call is a unit of work of its
    own; [pool_fails_at k] and [fails_at k] are the failures during the
    call of the entry numbered [k]. *)
Fixpoint postBackboneIngress_loop (now : timestamp) (fresh : uuid)
         (pool_fails_at : nat -> bool)
         (fails_at : nat -> forall R : Type, Stmt interval R -> bool)
         (k : nat) (bsid : string) (ingresses : list Ingress) (count : Z)
         (w : World interval) : Result Z * World interval :=
  match ingresses with
  | [] => (Ok count, w)
  | i :: rest =>
      match ingress_obj i with
      | NullObject =>
          (Throw (TypeError "Cannot read properties of null (reading 'host')"), w)
      | HostPort host port =>
          match addHostToAccessPoint now fresh (pool_fails_at k) (fails_at k) bsid
                                     (ingress_key i) host port w with
          | (Ok r, w') =>
              postBackboneIngress_loop now fresh pool_fails_at fails_at (S k) bsid rest
                                       (count + r) w'
          | (Throw e, w') => (Throw e, w')
          end
      end
  end.

(** What [fields.ingresses] holds: a value whose [typeof] is not
    ['object'], null (whose [typeof] is ['object']), or an object or
    array, given by its entries. *)
Inductive IngressesField :=
| NotAnObject
| NullIngresses
| Entries (entries : list Ingress).

(** The count [postBackboneIngress] reports:
    [let count = 0;
     if (typeof fields.ingresses == 'object') { for (...) { count += ... } }].
    [Object.entries(null)] throws. *)
Definition postBackboneIngress_count (now : timestamp) (fresh : uuid)
           (pool_fails_at : nat -> bool)
           (fails_at : nat -> forall R : Type, Stmt interval R -> bool)
           (bsid : string) (ingresses : IngressesField) (w : World interval)
  : Result Z * World interval :=
  match ingresses with
  | NotAnObject => (Ok 0, w)
  | NullIngresses =>
      (Throw (TypeError "Cannot convert undefined or null to object"), w)
  | Entries entries =>
      postBackboneIngress_loop now fresh pool_fails_at fails_at 0 bsid entries 0 w
  end.

End Runs.

Arguments new_networks : simpl never.
Arguments due_requests : simpl never.

(** Firings of the two timers, some of them while the store or the pool
    fails. *)
Module Timeline.

Definition passes : list (Pass Z) :=
  [mkPass CertificateRequestsWorker Scenario.now "u-1" false (@no_failure Z);
   mkPass NewNetworksWorker Scenario.now "req-4" false (@fail_on_status_update Z);
   mkPass NewNetworksWorker Scenario.now "req-5" false (@no_failure Z);
   mkPass CertificateRequestsWorker Scenario.now "u-2" false (@store_down Z);
   mkPass NewNetworksWorker Scenario.now "req-6" true (@no_failure Z);
   mkPass CertificateRequestsWorker (Scenario.now + 1) "u-3" false (@no_failure Z)].

Definition uuids : list uuid := ["req-4"; "req-5"; "req-6"].

End Timeline.

(** * Properties *)

(** ** Selection of rows *)

Section Selection.

Variable interval : Type.
Variable now : timestamp.

Lemma firstn_1_singleton (A : Type) (l : list A) (a : A) :
  firstn 1 l = [a] -> exists l', l = a :: l'.
Proof.
  destruct l as [|b l']; simpl; intros H.
  - discriminate.
  - injection H as ->. now exists l'.
Qed.

Lemma firstn_1_length (A : Type) (l : list A) :
  (List.length (firstn 1 l) <= 1)%nat.
Proof.
  destruct l as [|b [|c l']]; simpl; lia.
Qed.

Lemma firstn_1_In (A : Type) (l : list A) (a : A) :
  In a (firstn 1 l) -> In a l.
Proof.
  destruct l as [|b l']; simpl; [tauto|]. intros [H|[]]. now left.
Qed.

Lemma select_new_network_In (t : Tables interval) (row : ApplicationNetwork interval) :
  select_new_network t = [row] ->
  In row (ApplicationNetworks t) /\ an_OperStatus row = "new".
Proof.
  unfold select_new_network. intros H.
  apply firstn_1_singleton in H as [l' Hl'].
  assert (Hin : In row (filter (@is_new interval) (ApplicationNetworks t)))
    by (rewrite Hl'; now left).
  apply filter_In in Hin as [Hin Hnew].
  split; [exact Hin|]. now apply String.eqb_eq.
Qed.

Lemma created_le_refl (a : option timestamp) : created_le a a = true.
Proof.
  destruct a; simpl; [apply Z.leb_refl | reflexivity].
Qed.

Lemma created_le_trans (a b c : option timestamp) :
  created_le a b = true -> created_le b c = true -> created_le a c = true.
Proof.
  destruct a, b, c; simpl; try congruence.
  rewrite !Z.leb_le. lia.
Qed.

Lemma created_le_total (a b : option timestamp) :
  created_le a b = false -> created_le b a = true.
Proof.
  destruct a, b; simpl; try congruence.
  rewrite Z.leb_gt, Z.leb_le. lia.
Qed.

(** [created_le] on the values: a row with a CreatedTime is no later than
    another when the other has none or a CreatedTime that is not smaller;
    a row without one only when the other has none either. *)
Lemma created_le_values (a b : option timestamp) :
  created_le a b = true <->
  (forall tb, b = Some tb -> exists ta, a = Some ta /\ ta <= tb).
Proof.
  destruct a as [x|], b as [y|]; simpl.
  - rewrite Z.leb_le. split.
    + intros Hle tb Hb. injection Hb as <-. now exists x.
    + intros H. destruct (H y eq_refl) as [ta [Ha Hle]]. injection Ha as <-. exact Hle.
  - split; [intros _ tb Hb; discriminate | reflexivity].
  - split; [discriminate|]. intros H. destruct (H y eq_refl) as [ta [Ha _]]. discriminate.
  - split; [intros _ tb Hb; discriminate | reflexivity].
Qed.

Lemma insert_by_created_In (r x : CertificateRequest) (l : list CertificateRequest) :
  In x (insert_by_created r l) <-> x = r \/ In x l.
Proof.
  induction l as [|y l IH]; simpl.
  - intuition congruence.
  - destruct (created_le (cr_CreatedTime r) (cr_CreatedTime y)); simpl.
    + intuition congruence.
    + rewrite IH. intuition congruence.
Qed.

Lemma order_by_created_In (x : CertificateRequest) (l : list CertificateRequest) :
  In x (order_by_created l) <-> In x l.
Proof.
  induction l as [|y l IH]; simpl.
  - tauto.
  - rewrite insert_by_created_In, IH. intuition congruence.
Qed.

(** The first row of the ordered result is no later than any row. *)
Lemma order_by_created_head (l : list CertificateRequest) (h : CertificateRequest)
      (tl : list CertificateRequest) :
  order_by_created l = h :: tl ->
  forall x, In x l -> created_le (cr_CreatedTime h) (cr_CreatedTime x) = true.
Proof.
  revert h tl. induction l as [|r l IH]; simpl; intros h tl Hord x Hx.
  - contradiction.
  - destruct (order_by_created l) as [|h' tl'] eqn:Hl.
    + simpl in Hord. injection Hord as <- <-.
      destruct Hx as [<-|Hx]; [apply created_le_refl|].
      apply (proj2 (order_by_created_In x l)) in Hx. rewrite Hl in Hx. contradiction.
    + simpl in Hord.
      destruct (created_le (cr_CreatedTime r) (cr_CreatedTime h')) eqn:Hle.
      * injection Hord as <- <-.
        destruct Hx as [<-|Hx]; [apply created_le_refl|].
        eapply created_le_trans; [exact Hle|]. now apply (IH h' tl').
      * injection Hord as <- <-.
        destruct Hx as [<-|Hx]; [now apply created_le_total|].
        now apply (IH h' tl').
Qed.

Lemma actionable_spec (r : CertificateRequest) :
  actionable now r = true <->
  (exists t, cr_RequestTime r = Some t /\ t <= now) /\ cr_Processing r = false.
Proof.
  unfold actionable. destruct (cr_RequestTime r) as [t|].
  - rewrite andb_true_iff, Z.leb_le, negb_true_iff. split.
    + intros [Ht Hp]. split; [now exists t | exact Hp].
    + intros [[t' [Heq Ht]] Hp]. injection Heq as ->. now split.
  - split; [discriminate|]. intros [[t [Heq _]] _]. discriminate.
Qed.

Lemma select_actionable_request_In (t : Tables interval) (r : CertificateRequest) :
  In r (select_actionable_request now t) ->
  In r (CertificateRequests t) /\ actionable now r = true.
Proof.
  unfold select_actionable_request. intros H.
  apply firstn_1_In in H.
  apply (proj1 (order_by_created_In _ _)) in H. now apply filter_In in H.
Qed.

Lemma select_actionable_request_earliest (t : Tables interval) (r x : CertificateRequest) :
  In r (select_actionable_request now t) ->
  In x (CertificateRequests t) -> actionable now x = true ->
  created_le (cr_CreatedTime r) (cr_CreatedTime x) = true.
Proof.
  unfold select_actionable_request. intros Hr Hx Hact.
  destruct (order_by_created (filter (actionable now) (CertificateRequests t)))
    as [|h tl] eqn:Hord; simpl in Hr; [contradiction|].
  destruct Hr as [<-|[]].
  apply (order_by_created_head _ Hord). now apply filter_In.
Qed.

Lemma select_actionable_request_some (t : Tables interval) (x : CertificateRequest) :
  In x (CertificateRequests t) -> actionable now x = true ->
  exists r, select_actionable_request now t = [r].
Proof.
  unfold select_actionable_request. intros Hx Hact.
  destruct (order_by_created (filter (actionable now) (CertificateRequests t)))
    as [|h tl] eqn:Hord.
  - assert (H : In x (order_by_created (filter (actionable now) (CertificateRequests t))))
      by (apply order_by_created_In; now apply filter_In).
    rewrite Hord in H. contradiction.
  - now exists h.
Qed.

End Selection.

(** ** Passes of the certificate module *)

Ltac unfold_units :=
  unfold processNewNetworks, processCertificateRequests, listInvitations,
    addHostToAccessPoint, processNewNetworks_throws, processCertificateRequests_throws,
    processNewNetworks_try, processNewNetworks_catch, processNewNetworks_finally,
    processCertificateRequests_try, processCertificateRequests_catch,
    processCertificateRequests_finally, addHostToAccessPoint_try,
    addHostToAccessPoint_catch, try_catch_finally, ClientFromPool, release, setTimeout,
    Log, res_do, query, modify_world, get_local, set_local, bind, ret, throw in *.

(** One case split on whatever the next step of a unit of work depends
    on: the oracle, a result set, a nullable column. *)
Ltac branch :=
  match goal with
  | |- context [if ?f ?R ?s then _ else _] =>
      match type of s with Stmt _ _ => destruct (f R s) eqn:? end
  | |- context [select_new_network ?t] =>
      destruct (select_new_network t) as [|? [|? ?]] eqn:?
  | |- context [select_actionable_request ?n ?t] =>
      destruct (select_actionable_request n t) as [|? [|? ?]] eqn:?
  | |- context [request_id_taken ?i ?t] => destruct (request_id_taken i t) eqn:?
  | |- context [match an_EndTime ?r with _ => _ end] => destruct (an_EndTime r) eqn:?
  | |- context [match an_StartTime ?r with _ => _ end] => destruct (an_StartTime r) eqn:?
  | |- context [match access_of_key ?k with _ => _ end] => destruct (access_of_key k) eqn:?
  | |- context [match join_access ?r ?b ?t with _ => _ end] =>
      destruct (join_access r b t) as [|? [|? ?]] eqn:?
  | |- context [if truthy ?h then _ else _] => destruct (truthy h) eqn:?
  | |- context [if negb (String.eqb (lifecycle ?a) ?p) then _ else _] =>
      destruct (String.eqb (lifecycle a) p) eqn:?
  end; cbn.

Ltac branches := cbn; repeat branch.

Section Passes.

Variable interval : Type.
Variable IntervalMilliseconds : interval -> Z.
Variable DefaultCaExpiration : interval.

Local Abbreviation intake := (processNewNetworks IntervalMilliseconds DefaultCaExpiration).
Local Abbreviation intake_try :=
  (processNewNetworks_try IntervalMilliseconds DefaultCaExpiration).
Local Abbreviation intake_throws :=
  (processNewNetworks_throws IntervalMilliseconds DefaultCaExpiration).
Local Abbreviation expiration := (ca_expiration IntervalMilliseconds DefaultCaExpiration).

(** A pass of the intake worker that meets no failure, on a client with no
    transaction left open: the world it ends in. *)
Lemma processNewNetworks_commits now fresh (w : World interval) row expire :
  txn w = None ->
  select_new_network (store w) = [row] ->
  request_id_taken fresh (store w) = false ->
  expiration row = Some expire ->
  intake now fresh false no_failure w =
  (Ok tt,
   mkWorld
     (with_ApplicationNetworks
        (map (fun n => if (an_Id n =? an_Id row)%string
                       then set_OperStatus "cert_request_created" n
                       else n)
             (ApplicationNetworks (store w)))
        (with_CertificateRequests
           (CertificateRequests (store w)
              ++ [vanCA_request now fresh (an_StartTime row) expire (an_Id row)])
           (store w)))
     None (leased w) ((NewNetworksWorker, 0) :: timers w)
     (LogNewNetwork (an_Name row) :: logs w) (res w)).
Proof.
  intros Htxn Hsel Hfresh Hexp.
  destruct w as [st tx le ti lo re]; cbn in Htxn, Hsel, Hfresh; subst tx.
  unfold ca_expiration in Hexp. unfold_units. unfold no_failure. cbn.
  rewrite Hsel. cbn.
  destruct (an_EndTime row) as [e|]; [|destruct (an_StartTime row) as [s0|]];
    try discriminate; injection Hexp as <-; cbn; rewrite Hfresh; reflexivity.
Qed.

(** The [try] block never commits when it throws. *)
Lemma processNewNetworks_try_throw now fresh fails st e st' :
  intake_try now fresh fails st = (Throw e, st') ->
  store (snd st') = store (snd st).
Proof.
  destruct st as [l [s tx le ti lo re]]. unfold_units.
  branches; intros H; try discriminate; injection H as <- <-; reflexivity.
Qed.

(** Whatever fails, a pass that throws inside its [try] block leaves the
    committed rows as they were. *)
Lemma processNewNetworks_rolls_back now fresh pool_fails fails (w : World interval) e :
  intake_throws now fresh fails w e ->
  store (snd (intake now fresh pool_fails fails w)) = store w.
Proof.
  destruct w as [s tx le ti lo re]. intros [st H]. revert H. unfold_units.
  destruct pool_fails; [reflexivity|].
  branches; intros H; try discriminate; reflexivity.
Qed.

Lemma processCertificateRequests_try_throw now fresh fails st e st' :
  processCertificateRequests_try (interval := interval) now fresh fails st = (Throw e, st') ->
  store (snd st') = store (snd st).
Proof.
  destruct st as [l [s tx le ti lo re]]. unfold_units.
  branches; intros H; try discriminate; injection H as <- <-; reflexivity.
Qed.

Lemma processCertificateRequests_rolls_back now fresh pool_fails fails
      (w : World interval) e :
  processCertificateRequests_throws now fresh fails w e ->
  store (snd (processCertificateRequests now fresh pool_fails fails w)) = store w.
Proof.
  destruct w as [s tx le ti lo re]. intros [st H]. revert H. unfold_units.
  destruct pool_fails; [reflexivity|].
  branches; intros H; try discriminate; reflexivity.
Qed.

(** When the rollback itself is accepted, no transaction stays open. *)
Lemma processNewNetworks_closes_transaction now fresh fails (w : World interval) e :
  intake_throws now fresh fails w e ->
  fails unit ROLLBACK = false ->
  intake now fresh false fails w
  = (Ok tt, mkWorld (store w) None (leased w) ((NewNetworksWorker, 10000) :: timers w)
                    (logs (snd (intake now fresh false fails w))) (res w)).
Proof.
  destruct w as [s tx le ti lo re]. intros [st H] Hrb. revert H. unfold_units.
  branches; intros H; try discriminate; try congruence; reflexivity.
Qed.

Lemma processCertificateRequests_closes_transaction now fresh fails
      (w : World interval) e :
  processCertificateRequests_throws now fresh fails w e ->
  fails unit ROLLBACK = false ->
  processCertificateRequests now fresh false fails w
  = (Ok tt, mkWorld (store w) None (leased w)
                    ((CertificateRequestsWorker, 10000) :: timers w)
                    (logs (snd (processCertificateRequests now fresh false fails w)))
                    (res w)).
Proof.
  destruct w as [s tx le ti lo re]. intros [st H] Hrb. revert H. unfold_units.
  branches; intros H; try discriminate; try congruence; reflexivity.
Qed.

(** A pass of the fulfillment worker that meets no failure. *)
Lemma processCertificateRequests_commits now fresh (w : World interval) r :
  txn w = None ->
  select_actionable_request now (store w) = [r] ->
  processCertificateRequests now fresh false no_failure w =
  (Ok tt,
   mkWorld
     (with_CertificateRequests
        (map (fun x => if (cr_Id x =? cr_Id r)%string then set_Processing true x else x)
             (CertificateRequests (store w)))
        (store w))
     None (leased w) ((CertificateRequestsWorker, 0) :: timers w)
     (LogProcessingRequest (cr_Id r) (cr_RequestType r) :: logs w) (res w)).
Proof.
  intros Htxn Hsel.
  destruct w as [st tx le ti lo re]; cbn in Htxn, Hsel; subst tx.
  unfold_units. unfold no_failure. cbn. rewrite Hsel. reflexivity.
Qed.

(** With nothing to do, a pass changes no row. *)
Lemma processCertificateRequests_idle now fresh (w : World interval) :
  txn w = None ->
  select_actionable_request now (store w) = [] ->
  processCertificateRequests now fresh false no_failure w =
  (Ok tt,
   mkWorld (store w) None (leased w) ((CertificateRequestsWorker, 2000) :: timers w)
           (logs w) (res w)).
Proof.
  intros Htxn Hsel.
  destruct w as [[a b c d e f] tx le ti lo re]; cbn in Htxn, Hsel; subst tx.
  unfold_units. unfold no_failure. cbn. rewrite Hsel. reflexivity.
Qed.

(** The workers hand their client back on every path. *)
Lemma processNewNetworks_releases now fresh fails (w : World interval) :
  leased (snd (intake now fresh false fails w)) = leased w.
Proof.
  destruct w as [s tx le ti lo re]. unfold_units.
  branches; reflexivity.
Qed.

Lemma processCertificateRequests_releases now fresh fails (w : World interval) :
  leased (snd (processCertificateRequests now fresh false fails w)) = leased w.
Proof.
  destruct w as [s tx le ti lo re]. unfold_units.
  branches; reflexivity.
Qed.

(** What a pass of the fulfillment worker commits, whether its SELECT
    returned a request or not: the requests with the Id of a returned one
    are marked, the others are as before. *)
Lemma processCertificateRequests_claims_selected now fresh (w : World interval) :
  txn w = None ->
  CertificateRequests (store (snd (processCertificateRequests now fresh false no_failure w)))
  = map (fun x =>
           if existsb (fun r => (cr_Id x =? cr_Id r)%string)
                      (select_actionable_request now (store w))
           then set_Processing true x
           else x)
        (CertificateRequests (store w)).
Proof.
  intros Htxn.
  pose proof (firstn_1_length
                (order_by_created (filter (actionable now) (CertificateRequests (store w)))))
    as Hlen.
  fold (select_actionable_request now (store w)) in Hlen.
  destruct (select_actionable_request now (store w)) as [|r [|r' l]] eqn:Hsel.
  - rewrite (processCertificateRequests_idle now fresh w Htxn Hsel). cbn.
    now rewrite map_id.
  - rewrite (processCertificateRequests_commits now fresh w Htxn Hsel). cbn.
    apply map_ext. intros x. now rewrite orb_false_r.
  - cbn in Hlen. lia.
Qed.

(** *** The intake worker *)

(** A network that is found and has neither time: whatever else fails,
    nothing is committed. *)
Lemma processNewNetworks_without_times now fresh pool_fails fails (w : World interval) row :
  txn w = None ->
  select_new_network (store w) = [row] ->
  an_StartTime row = None -> an_EndTime row = None ->
  store (snd (intake now fresh pool_fails fails w)) = store w.
Proof.
  intros Htxn Hsel Hstart Hend.
  destruct w as [s tx le ti lo re]; cbn in Htxn, Hsel; subst tx.
  unfold_units. destruct pool_fails; [reflexivity|].
  cbn. repeat (match goal with
               | |- context [if ?f ?R ?q then _ else _] =>
                   match type of q with Stmt _ _ => destruct (f R q) eqn:? end
               end; cbn);
    rewrite ?Hsel; cbn; rewrite ?Hend, ?Hstart; cbn;
    repeat (match goal with
            | |- context [if ?f ?R ?q then _ else _] =>
                match type of q with Stmt _ _ => destruct (f R q) eqn:? end
            end; cbn);
    try reflexivity; try congruence.
Qed.

(** X14.  A pass of [processNewNetworks] that finds a network with
    OperStatus 'new' that has neither a StartTime nor an EndTime inserts
    no request and does not advance the network.  With a store that
    accepts every statement: the [else] branch reads [row.starttime] of
    the row, which is null, the TypeError is caught, the transaction is
    rolled back and the worker is set to run again in ten seconds, when it
    finds the network as it was.  Whatever the pool or the store reject,
    the pass commits nothing. *)
Theorem processNewNetworks_stalls_without_times :
  forall now fresh (w : World interval) row,
    txn w = None ->
    select_new_network (store w) = [row] ->
    an_StartTime row = None ->
    an_EndTime row = None ->
    intake now fresh false no_failure w
    = (Ok tt,
       mkWorld (store w) None (leased w) ((NewNetworksWorker, 10000) :: timers w)
               (LogRollbackNewNetwork
                  (TypeError "Cannot read properties of null (reading 'getTime')")
                  :: LogNewNetwork (an_Name row) :: logs w)
               (res w))
    /\ In row (ApplicationNetworks (store (snd (intake now fresh false no_failure w))))
    /\ an_OperStatus row = "new"
    /\ CertificateRequests (store (snd (intake now fresh false no_failure w)))
       = CertificateRequests (store w)
    /\ select_new_network (store (snd (intake now fresh false no_failure w))) = [row]
    /\ (forall pool_fails fails,
          store (snd (intake now fresh pool_fails fails w)) = store w).
Proof.
  intros now fresh w row Htxn Hsel Hstart Hend.
  assert (Hrun : intake now fresh false no_failure w
                 = (Ok tt,
                    mkWorld (store w) None (leased w)
                            ((NewNetworksWorker, 10000) :: timers w)
                            (LogRollbackNewNetwork
                               (TypeError
                                  "Cannot read properties of null (reading 'getTime')")
                               :: LogNewNetwork (an_Name row) :: logs w)
                            (res w))).
  { destruct w as [s tx le ti lo re]; cbn in Htxn, Hsel; subst tx.
    unfold_units. unfold no_failure. cbn. rewrite Hsel. cbn.
    rewrite Hend, Hstart. reflexivity. }
  destruct (select_new_network_In _ Hsel) as [Hin Hnew].
  rewrite Hrun. cbn [fst snd store].
  repeat split; try assumption; try reflexivity.
  intros pool_fails fails. now apply processNewNetworks_without_times with (row := row).
Qed.

(** C1 (amended).  A pass of [processNewNetworks] that finds a network
    [row] with OperStatus 'new' which has an EndTime or a StartTime, and
    meets no failure of the pool or the store, commits: it appends exactly one
    CertificateRequest, of kind vanCA, for that network, with CreatedTime =
    now, RequestTime = the network's StartTime and ExpireTime = the
    expiration of the specification (EndTime + DeleteDelay when EndTime is
    defined, StartTime + the default CA lifetime otherwise), and it sets
    the OperStatus of the network to 'cert_request_created'. *)
Theorem processNewNetworks_creates_vanCA_request :
  forall now fresh (w : World interval) row expire,
    txn w = None ->
    select_new_network (store w) = [row] ->
    request_id_taken fresh (store w) = false ->
    expiration row = Some expire ->
    let w' := snd (intake now fresh false no_failure w) in
    fst (intake now fresh false no_failure w) = Ok tt
    /\ txn w' = None
    /\ an_OperStatus row = "new"
    /\ CertificateRequests (store w') =
       CertificateRequests (store w)
         ++ [mkCertificateRequest fresh vanCA (Some now) (an_StartTime row) (Some expire)
                                  None (Some (an_Id row)) None None false]
    /\ ApplicationNetworks (store w') =
       map (fun n => if (an_Id n =? an_Id row)%string
                     then mkApplicationNetwork
                            (an_Id n) (an_Name n) (an_Owner n) (an_CertificateAuthority n)
                            (an_StartTime n) (an_EndTime n) (an_DeleteDelay n)
                            "cert_request_created"
                     else n)
           (ApplicationNetworks (store w))
    /\ In (mkApplicationNetwork
             (an_Id row) (an_Name row) (an_Owner row) (an_CertificateAuthority row)
             (an_StartTime row) (an_EndTime row) (an_DeleteDelay row)
             "cert_request_created")
          (ApplicationNetworks (store w')).
Proof.
  intros now fresh w row expire Htxn Hsel Hfresh Hexp w'. subst w'.
  change (mkApplicationNetwork
            (an_Id row) (an_Name row) (an_Owner row) (an_CertificateAuthority row)
            (an_StartTime row) (an_EndTime row) (an_DeleteDelay row)
            "cert_request_created")
    with (set_OperStatus "cert_request_created" row).
  rewrite (processNewNetworks_commits now fresh w Htxn Hsel Hfresh Hexp). cbn.
  destruct (select_new_network_In _ Hsel) as [Hin Hnew].
  repeat split; try reflexivity; try assumption.
  apply in_map_iff. exists row. split; [|exact Hin].
  now rewrite String.eqb_refl.
Qed.

(** *** The fulfillment worker *)

(** C2.  The SELECT of [processCertificateRequests] returns at most one
    request; a returned request is in the table, has RequestTime <= now and
    Processing = false, and its CreatedTime is the smallest among the
    eligible requests: whenever an eligible request has a CreatedTime, the
    returned one has a CreatedTime too, and it is <= that one (a request
    without a CreatedTime is returned only when no eligible request has
    one).  When some request is eligible one is returned; a request whose
    RequestTime is in the future is never returned, whatever its
    CreatedTime; and the request a following pass selects, if it was
    eligible already, has another Id and a CreatedTime >= that of the one
    this pass selected.  The pass marks the requests with the Id of the
    returned one, and no other. *)
Theorem processCertificateRequests_selects_earliest_eligible :
  forall now (t : Tables interval),
    (List.length (select_actionable_request now t) <= 1)%nat
    /\ (forall r, In r (select_actionable_request now t) ->
          In r (CertificateRequests t)
          /\ (exists rt, cr_RequestTime r = Some rt /\ rt <= now)
          /\ cr_Processing r = false
          /\ forall x rx tx,
               In x (CertificateRequests t) ->
               cr_RequestTime x = Some rx -> rx <= now -> cr_Processing x = false ->
               cr_CreatedTime x = Some tx ->
               exists tr, cr_CreatedTime r = Some tr /\ tr <= tx)
    /\ (forall x rx,
          In x (CertificateRequests t) ->
          cr_RequestTime x = Some rx -> rx <= now -> cr_Processing x = false ->
          exists r, select_actionable_request now t = [r])
    /\ (forall x rt, cr_RequestTime x = Some rt -> now < rt ->
          ~ In x (select_actionable_request now t))
    /\ (forall fresh now' (w : World interval) r1 r2 rt,
          store w = t -> txn w = None ->
          select_actionable_request now t = [r1] ->
          select_actionable_request
            now' (store (snd (processCertificateRequests now fresh false no_failure w)))
          = [r2] ->
          cr_RequestTime r2 = Some rt -> rt <= now ->
          cr_Id r2 <> cr_Id r1
          /\ forall t2, cr_CreatedTime r2 = Some t2 ->
                        exists t1, cr_CreatedTime r1 = Some t1 /\ t1 <= t2)
    /\ (forall fresh (w : World interval),
          store w = t -> txn w = None ->
          CertificateRequests
            (store (snd (processCertificateRequests now fresh false no_failure w)))
          = map (fun x =>
                   if existsb (fun r => (cr_Id x =? cr_Id r)%string)
                              (select_actionable_request now t)
                   then mkCertificateRequest
                          (cr_Id x) (cr_RequestType x) (cr_CreatedTime x) (cr_RequestTime x)
                          (cr_ExpireTime x) (cr_InteriorRouter x) (cr_ApplicationNetwork x)
                          (cr_Invitation x) (cr_Site x) true
                   else x)
                (CertificateRequests t)).
Proof.
  intros now t. split; [apply firstn_1_length|]. split; [|split; [|split; [|split]]].
  5:{ intros fresh w <- Htxn.
      exact (processCertificateRequests_claims_selected now fresh w Htxn). }
  - intros r Hr. destruct (select_actionable_request_In _ _ _ Hr) as [Hin Hact].
    split; [exact Hin|]. apply actionable_spec in Hact as [Hrt Hp].
    split; [exact Hrt|]. split; [exact Hp|].
    intros x rx tx Hx Hrx Hle Hpx. apply created_le_values.
    apply (select_actionable_request_earliest now t); [exact Hr | exact Hx |].
    apply actionable_spec. split; [now exists rx | exact Hpx].
  - intros x rx Hx Hrx Hle Hpx. apply (select_actionable_request_some now t x Hx).
    apply actionable_spec. split; [now exists rx | exact Hpx].
  - intros x rt Hrt Hlt Hin.
    apply select_actionable_request_In in Hin as [_ Hact].
    apply actionable_spec in Hact as [[rt' [Heq Hle]] _].
    rewrite Hrt in Heq. injection Heq as <-. lia.
  - intros fresh now' w r1 r2 rt Hw Htxn Hsel1 Hsel2 Hrt Hle. subst t.
    rewrite (processCertificateRequests_commits now fresh w Htxn Hsel1) in Hsel2.
    cbn in Hsel2.
    assert (Hin2 : In r2 (select_actionable_request
                            now'
                            (with_CertificateRequests
                               (map (fun x => if (cr_Id x =? cr_Id r1)%string
                                              then set_Processing true x else x)
                                    (CertificateRequests (store w)))
                               (store w))))
      by (rewrite Hsel2; now left).
    apply select_actionable_request_In in Hin2 as [Hin2 Hact2]. cbn in Hin2.
    apply actionable_spec in Hact2 as [_ Hp2].
    apply in_map_iff in Hin2 as [x0 [Hx0 Hin0]].
    destruct (cr_Id x0 =? cr_Id r1)%string eqn:Hid.
    + subst r2. cbn in Hp2. discriminate.
    + subst x0. apply String.eqb_neq in Hid. split; [exact Hid|].
      apply created_le_values.
      apply (select_actionable_request_earliest now (store w)).
      * rewrite Hsel1. now left.
      * exact Hin0.
      * apply actionable_spec. split; [now exists rt | exact Hp2].
Qed.

(** C3 (amended).  A pass of [processCertificateRequests] that selects
    request [r] (and meets no failure) commits with the rows whose Id is
    that of [r] marked Processing = true and still in the table; it inserts
    no TlsCertificate, touches no subject row and deletes no request:
    every other table is as before. *)
Theorem processCertificateRequests_only_marks_processing :
  forall now fresh (w : World interval) r,
    txn w = None ->
    select_actionable_request now (store w) = [r] ->
    let w' := snd (processCertificateRequests now fresh false no_failure w) in
    fst (processCertificateRequests now fresh false no_failure w) = Ok tt
    /\ txn w' = None
    /\ CertificateRequests (store w') =
       map (fun x => if (cr_Id x =? cr_Id r)%string then set_Processing true x else x)
           (CertificateRequests (store w))
    /\ In (set_Processing true r) (CertificateRequests (store w'))
    /\ TlsCertificates (store w') = TlsCertificates (store w)
    /\ ApplicationNetworks (store w') = ApplicationNetworks (store w)
    /\ MemberInvitations (store w') = MemberInvitations (store w)
    /\ InteriorSites (store w') = InteriorSites (store w)
    /\ BackboneAccessPoints (store w') = BackboneAccessPoints (store w).
Proof.
  intros now fresh w r Htxn Hsel w'. subst w'.
  rewrite (processCertificateRequests_commits now fresh w Htxn Hsel). cbn.
  repeat split; try reflexivity.
  apply in_map_iff. exists r. rewrite String.eqb_refl. split; [reflexivity|].
  assert (H : In r (select_actionable_request now (store w))) by (rewrite Hsel; now left).
  now apply select_actionable_request_In in H.
Qed.

(** *** Failure of a pass *)

(** C4.  Whatever the store rejects, a pass of either worker that throws
    inside its [try] block leaves the committed rows exactly as they were
    before the pass, and, when the ROLLBACK is accepted, leaves no
    transaction open.  In particular, when the store rejects the update of
    the network's status, the [try] block of [processNewNetworks] throws
    with the CertificateRequest inserted in its transaction, and after the
    pass the request row does not exist and the network is unchanged. *)
Theorem worker_pass_is_all_or_nothing :
  forall now fresh fails (w : World interval),
    (forall pool_fails e,
        intake_throws now fresh fails w e ->
        store (snd (intake now fresh pool_fails fails w)) = store w
        /\ (pool_fails = false -> fails unit ROLLBACK = false ->
            txn (snd (intake now fresh pool_fails fails w)) = None))
    /\ (forall pool_fails e,
           processCertificateRequests_throws now fresh fails w e ->
           store (snd (processCertificateRequests now fresh pool_fails fails w)) = store w
           /\ (pool_fails = false -> fails unit ROLLBACK = false ->
               txn (snd (processCertificateRequests now fresh pool_fails fails w)) = None))
    /\ (forall row expire,
           txn w = None ->
           select_new_network (store w) = [row] ->
           request_id_taken fresh (store w) = false ->
           expiration row = Some expire ->
           (exists e st,
               intake_try now fresh fail_on_status_update
                          (2000, with_leased (S (leased w)) w) = (Throw e, st)
               /\ txn (snd st) =
                  Some (with_CertificateRequests
                          (CertificateRequests (store w)
                             ++ [vanCA_request now fresh (an_StartTime row) expire
                                               (an_Id row)])
                          (store w)))
           /\ store (snd (intake now fresh false fail_on_status_update w)) = store w
           /\ txn (snd (intake now fresh false fail_on_status_update w)) = None).
Proof.
  intros now fresh fails w. split; [|split].
  - intros pool_fails e Hthrow. split.
    + now apply processNewNetworks_rolls_back with (e := e).
    + intros -> Hrb.
      now rewrite (processNewNetworks_closes_transaction Hthrow Hrb).
  - intros pool_fails e Hthrow. split.
    + now apply processCertificateRequests_rolls_back with (e := e).
    + intros -> Hrb.
      now rewrite (processCertificateRequests_closes_transaction Hthrow Hrb).
  - intros row expire Htxn Hsel Hfresh Hexp.
    destruct w as [st tx le ti lo re]; cbn in Htxn, Hsel, Hfresh; subst tx.
    unfold ca_expiration in Hexp. unfold_units. cbn. rewrite Hsel. cbn.
    destruct (an_EndTime row) as [e|]; [|destruct (an_StartTime row) as [s0|]];
      try discriminate; injection Hexp as <-; cbn; rewrite Hfresh; cbn;
      (split; [eexists; eexists; split; reflexivity | split; reflexivity]).
Qed.

End Passes.

(** ** The API server *)

Section Api.

Variable interval : Type.



(** [listInvitations] on a store that accepts its query. *)
Lemma listInvitations_ok now fresh (w : World interval) :
  listInvitations now fresh false no_failure w =
  (Ok tt,
   with_res (ResEnd :: ResStatus 200
                    :: ResSend (map invitation_row (MemberInvitations (view w))) :: res w)
            w).
Proof.
  destruct w as [s [t|] le ti lo re]; reflexivity.
Qed.

(** C8 (the code at the failing input).  When the store rejects the query
    of [listInvitations], the exception leaves the function before
    [client.release()]: the client acquired from the pool stays leased. *)
Theorem listInvitations_leaks_client_on_error :
  forall now fresh (w : World interval),
    listInvitations now fresh false store_down w =
    (Throw (QueryError "statement rejected"), with_leased (S (leased w)) w).
Proof.
  intros now fresh w. reflexivity.
Qed.

(** [addHostToAccessPoint] hands its client back on every path. *)
Lemma addHostToAccessPoint_releases now fresh fails bsid key host prt (w : World interval) :
  leased (snd (addHostToAccessPoint now fresh false fails bsid key host prt w)) = leased w.
Proof.
  destruct w as [s tx le ti lo re]. unfold_units.
  branches; reflexivity.
Qed.

(** The world [addHostToAccessPoint] ends in when every check passes and
    nothing fails. *)
Lemma addHostToAccessPoint_accepts now fresh bsid key host prt (w : World interval) ref a :
  txn w = None ->
  access_of_key key = Some ref ->
  join_access ref bsid (store w) = [a] ->
  truthy (hostname a) = false ->
  lifecycle a = "partial" ->
  addHostToAccessPoint now fresh false no_failure bsid key host prt w =
  (Ok 1,
   with_store
     (with_BackboneAccessPoints
        (map (fun p => if (ap_Id p =? access_ref a)%string then set_access host prt p else p)
             (BackboneAccessPoints (store w)))
        (store w)) w).
Proof.
  intros Htxn Hkey Hjoin Hhost Hlc.
  destruct w as [s tx le ti lo re]; cbn in Htxn, Hjoin; subst tx.
  unfold_units. unfold no_failure. cbn. rewrite Hkey. cbn. rewrite Hjoin. cbn.
  rewrite Hhost, Hlc. reflexivity.
Qed.



End Api.

(** ** The synchronization protocol *)

Section Protocol.

Variable onHeartbeat : Handler3.
Variable onSolicit : HandlerN.
Variable onGet onClaim : Handler2.

Local Abbreviation dispatch body := (DispatchMessage body onHeartbeat onSolicit onGet onClaim).

Lemma strictly_equal_spec (x : value) (s : string) :
  strictly_equal x s = true <-> x = VStr s.
Proof.
  destruct x; cbn; try (split; [discriminate | intros H; discriminate H]).
  rewrite String.eqb_eq. split.
  - now intros ->.
  - intros H. now injection H.
Qed.

Lemma known_op_spec (o : value) :
  known_op o <->
  strictly_equal o OP_HEARTBEAT || strictly_equal o OP_GET || strictly_equal o OP_CLAIM
  = true.
Proof.
  unfold known_op, OP_HEARTBEAT, OP_GET, OP_CLAIM.
  rewrite !orb_true_iff, !strictly_equal_spec. tauto.
Qed.

Lemma rejected_dec (body : Envelope) : rejected body \/ ~ rejected body.
Proof.
  unfold rejected. rewrite known_op_spec.
  destruct (loosely_equal_VERSION (version body)); [|now left; left].
  destruct (strictly_equal (op body) OP_HEARTBEAT || strictly_equal (op body) OP_GET
            || strictly_equal (op body) OP_CLAIM).
  - right. intros [H|H]; [discriminate | now apply H].
  - left. right. discriminate.
Qed.

(** A rejected message: a throw, and no invocation. *)
Lemma DispatchMessage_rejected (body : Envelope) :
  rejected body -> exists e, dispatch body = ([], Throw e).
Proof.
  unfold rejected. rewrite known_op_spec. unfold DispatchMessage.
  intros [Hv|Hop].
  - rewrite Hv. cbn. eauto.
  - destruct (loosely_equal_VERSION (version body)); cbn; [|eauto].
    destruct (strictly_equal (op body) OP_HEARTBEAT); [now destruct Hop|].
    destruct (strictly_equal (op body) OP_GET); [now destruct Hop|].
    destruct (strictly_equal (op body) OP_CLAIM); [now destruct Hop|].
    eauto.
Qed.

(** An accepted message: the one invocation its op-code selects, and the
    outcome of that invocation. *)
Lemma DispatchMessage_accepted (body : Envelope) :
  ~ rejected body ->
  (op body = VStr "HB"
   /\ dispatch body = invoke (OnHeartbeat (site body) (hashset body) (address body))
                             (onHeartbeat (site body) (hashset body) (address body)))
  \/ (op body = VStr "GET"
      /\ dispatch body = invoke (OnGet (site body) (objectname body))
                                (onGet (site body) (objectname body)))
  \/ (op body = VStr "CLAIM"
      /\ dispatch body = invoke (OnClaim (claim body) (name body))
                                (onClaim (claim body) (name body))).
Proof.
  unfold rejected, known_op, DispatchMessage. intros Hok.
  destruct (loosely_equal_VERSION (version body)); [|tauto]. cbn.
  destruct (strictly_equal (op body) OP_HEARTBEAT) eqn:H1;
    [apply strictly_equal_spec in H1; now left|].
  destruct (strictly_equal (op body) OP_GET) eqn:H2;
    [apply strictly_equal_spec in H2; now right; left|].
  destruct (strictly_equal (op body) OP_CLAIM) eqn:H3;
    [apply strictly_equal_spec in H3; now right; right|].
  exfalso. apply Hok. right. intros [H|[H|H]]; rewrite H in *; discriminate.
Qed.

Lemma DispatchMessage_accepted_once (body : Envelope) :
  ~ rejected body -> exists c, fst (dispatch body) = [c].
Proof.
  intros Hok.
  destruct (DispatchMessage_accepted Hok) as [[_ H]|[[_ H]|[_ H]]]; rewrite H; cbn; eauto.
Qed.

(** C6 (amended).  [DispatchMessage] throws an error of its own, without
    invoking a handler, exactly when body.version != 1 under the loose
    comparison of JavaScript or body.op is not one of the strings 'HB',
    'GET', 'CLAIM'; on such a message no handler is invoked.  A version
    that is a number is [!= 1] exactly when it is not 1; [undefined],
    [null] and [false] are; [true], ['1'] and [[1]] are not.  On any
    other message, and whenever the call does not throw, exactly one
    handler is invoked, the one of the op-code with the fields of the
    message, and the call ends as that handler ends: it returns when the
    handler returns and throws what the handler throws.  So with handlers
    that return, the call throws if and only if the message is rejected. *)
Theorem DispatchMessage_throws_iff_rejected :
  forall body : Envelope,
    (rejected body <-> fst (dispatch body) = [] /\ exists e, snd (dispatch body) = Throw e)
    /\ (rejected body -> fst (dispatch body) = [])
    /\ (~ rejected body -> exists c, fst (dispatch body) = [c])
    /\ (snd (dispatch body) = Ok tt -> exists c, fst (dispatch body) = [c])
    /\ ((forall s h a, onHeartbeat s h a = None) ->
        (forall s o, onGet s o = None) ->
        (forall c n, onClaim c n = None) ->
        ((exists e, snd (dispatch body) = Throw e) <-> rejected body))
    /\ (forall n, version body = VNum n ->
                  (loosely_equal_VERSION (version body) = false <-> n <> 1))
    /\ (version body = VUndefined \/ version body = VNull \/ version body = VBool false ->
        rejected body)
    /\ (version body = VBool true \/ version body = VStr "1"
        \/ version body = VArr [VNum 1] ->
        (rejected body <-> ~ known_op (op body)))
    /\ (~ rejected body ->
        (op body = VStr "HB"
         /\ dispatch body
            = ([OnHeartbeat (site body) (hashset body) (address body)],
               match onHeartbeat (site body) (hashset body) (address body) with
               | None => Ok tt
               | Some e => Throw e
               end))
        \/ (op body = VStr "GET"
            /\ dispatch body
               = ([OnGet (site body) (objectname body)],
                  match onGet (site body) (objectname body) with
                  | None => Ok tt
                  | Some e => Throw e
                  end))
        \/ (op body = VStr "CLAIM"
            /\ dispatch body
               = ([OnClaim (claim body) (name body)],
                  match onClaim (claim body) (name body) with
                  | None => Ok tt
                  | Some e => Throw e
                  end))).
Proof.
  intros body. split; [|split; [|split; [|split; [|split; [|split; [|split; [|split]]]]]]].
  - split.
    + intros Hrej. destruct (DispatchMessage_rejected Hrej) as [e He].
      rewrite He. cbn. eauto.
    + intros [Hnil _]. destruct (rejected_dec body) as [Hrej|Hok]; [exact Hrej|].
      destruct (DispatchMessage_accepted_once Hok) as [c Hc]. congruence.
  - intros Hrej. destruct (DispatchMessage_rejected Hrej) as [e He]. now rewrite He.
  - apply DispatchMessage_accepted_once.
  - intros Hret. destruct (rejected_dec body) as [Hrej|Hok].
    + destruct (DispatchMessage_rejected Hrej) as [e He]. rewrite He in Hret. discriminate.
    + now apply DispatchMessage_accepted_once.
  - intros Hhb Hget Hclaim. split.
    + intros [e He]. destruct (rejected_dec body) as [Hrej|Hok]; [exact Hrej|].
      destruct (DispatchMessage_accepted Hok) as [[_ H]|[[_ H]|[_ H]]];
        rewrite H in He; cbn in He;
        rewrite ?Hhb, ?Hget, ?Hclaim in He; discriminate.
    + intros Hrej. destruct (DispatchMessage_rejected Hrej) as [e He].
      rewrite He. cbn. eauto.
  - intros n ->. cbn. unfold VERSION. apply Z.eqb_neq.
  - intros [H | [H | H]]; left; rewrite H; reflexivity.
  - assert (Hgate : loosely_equal_VERSION (version body) = true ->
                    (rejected body <-> ~ known_op (op body))).
    { intros Hv. unfold rejected. rewrite Hv. split; [|now right].
      intros [H|H]; [discriminate | exact H]. }
    intros [Hv | [Hv | Hv]]; apply Hgate; rewrite Hv; vm_compute; reflexivity.
  - exact (@DispatchMessage_accepted body).
Qed.

(** C7 (amended).  A message built by [Heartbeat] is dispatched to the
    heartbeat handler alone, with the site, the hash-set and the address,
    the empty string standing in for an address that is undefined; a
    message built by [GetObject] to the get handler alone; a message built
    by [AssertClaim] to the claim handler alone; each with the constructor's
    arguments, and the call ends as that invocation ends. *)
Theorem construct_then_dispatch :
  forall fromSite hashSet address objectName claimId name_ : value,
    dispatch (Heartbeat fromSite hashSet address)
    = ([OnHeartbeat fromSite hashSet (default_parameter (VStr "") address)],
       match onHeartbeat fromSite hashSet (default_parameter (VStr "") address) with
       | None => Ok tt
       | Some e => Throw e
       end)
    /\ (address <> VUndefined ->
        fst (dispatch (Heartbeat fromSite hashSet address))
        = [OnHeartbeat fromSite hashSet address])
    /\ dispatch (GetObject fromSite objectName)
       = ([OnGet fromSite objectName],
          match onGet fromSite objectName with
          | None => Ok tt
          | Some e => Throw e
          end)
    /\ dispatch (AssertClaim claimId name_)
       = ([OnClaim claimId name_],
          match onClaim claimId name_ with
          | None => Ok tt
          | Some e => Throw e
          end).
Proof.
  intros fromSite hashSet address objectName claimId name_.
  repeat split; try reflexivity.
  intros Hdef. destruct address; cbn; congruence.
Qed.

(** C10.  [DispatchMessage] never invokes its [onSolicit] argument: no
    invocation it makes is one of the solicit handler, and the call is the
    same whichever solicit handler it is given. *)
Theorem DispatchMessage_never_solicits :
  forall (body : Envelope) (onSolicit' : HandlerN),
    (forall args, ~ In (OnSolicit args) (fst (dispatch body)))
    /\ DispatchMessage body onHeartbeat onSolicit' onGet onClaim = dispatch body.
Proof.
  intros body onSolicit'. split; [|reflexivity].
  intros args. unfold DispatchMessage.
  destruct (negb (loosely_equal_VERSION (version body))); [intros []|].
  destruct (strictly_equal (op body) OP_HEARTBEAT); [intros [H|[]]; discriminate|].
  destruct (strictly_equal (op body) OP_GET); [intros [H|[]]; discriminate|].
  destruct (strictly_equal (op body) OP_CLAIM); [intros [H|[]]; discriminate|].
  intros [].
Qed.

End Protocol.

(** ** Invitation admission *)

Section Admission.

Variable now : timestamp.
Variable claimId : uuid.

(** A successful claim counts one instance on the first invitation with
    the claim id, which was claimable, and changes nothing else. *)
Lemma CLAIM_success (invitations invitations' : list MemberInvitation) :
  CLAIM now claimId invitations = Some invitations' ->
  exists before i after,
    invitations = before ++ i :: after
    /\ invitations' = before ++ count_instance i :: after
    /\ (forall j, In j before -> mi_Id j <> claimId)
    /\ mi_Id i = claimId
    /\ claimable now i = true.
Proof.
  revert invitations'. induction invitations as [|j rest IH]; simpl; intros invitations' H.
  - discriminate.
  - destruct (String.eqb_spec (mi_Id j) claimId) as [Hid|Hid].
    + destruct (claimable now j) eqn:Hc; [|discriminate].
      injection H as <-. exists [], j, rest. repeat split; auto; try (intros ? []).
    + destruct (CLAIM now claimId rest) as [rest'|]; [|discriminate].
      injection H as <-.
      destruct (IH rest' eq_refl) as [before [i [after [H1 [H2 [H3 [H4 H5]]]]]]].
      exists (j :: before), i, after. subst rest rest'. repeat split; auto.
      intros k [<-|Hk]; auto.
Qed.

(** A claim on an invitation that is not claimable fails. *)
Lemma CLAIM_refused (before after : list MemberInvitation) (i : MemberInvitation) :
  (forall j, In j before -> mi_Id j <> claimId) ->
  mi_Id i = claimId ->
  claimable now i = false ->
  CLAIM now claimId (before ++ i :: after) = None.
Proof.
  intros Hbefore Hid Hc. induction before as [|j before IH]; simpl.
  - apply String.eqb_eq in Hid. now rewrite Hid, Hc.
  - destruct (String.eqb_spec (mi_Id j) claimId) as [Hj|Hj].
    + exfalso. apply (Hbefore j); [now left | exact Hj].
    + rewrite IH; [reflexivity|]. intros k Hk. apply Hbefore. now right.
Qed.

Lemma CLAIM_granted (before after : list MemberInvitation) (i : MemberInvitation) :
  (forall j, In j before -> mi_Id j <> claimId) ->
  mi_Id i = claimId ->
  claimable now i = true ->
  CLAIM now claimId (before ++ i :: after) = Some (before ++ count_instance i :: after).
Proof.
  intros Hbefore Hid Hc. induction before as [|j before IH]; simpl.
  - apply String.eqb_eq in Hid. now rewrite Hid, Hc.
  - destruct (String.eqb_spec (mi_Id j) claimId) as [Hj|Hj].
    + exfalso. apply (Hbefore j); [now left | exact Hj].
    + rewrite IH; [reflexivity|]. intros k Hk. apply Hbefore. now right.
Qed.

Lemma claimable_spec (i : MemberInvitation) :
  claimable now i = true <->
  now <= mi_JoinDeadline i /\ mi_InstanceCount i < mi_InstanceLimit i.
Proof.
  unfold claimable. now rewrite andb_true_iff, Z.leb_le, Z.ltb_lt.
Qed.

(** C5.  A CLAIM succeeds only on an invitation with now <= JoinDeadline
    and InstanceCount < InstanceLimit; a successful CLAIM adds exactly 1 to
    the InstanceCount of that invitation, in the same step, and changes
    nothing else; it keeps InstanceCount <= InstanceLimit on every
    invitation; and a CLAIM fails when the invitation's InstanceCount has
    reached its InstanceLimit or its JoinDeadline is past. *)
Theorem CLAIM_admission_control :
  forall invitations : list MemberInvitation,
    (forall invitations',
        CLAIM now claimId invitations = Some invitations' ->
        exists before i after,
          invitations = before ++ i :: after
          /\ invitations' = before ++ count_instance i :: after
          /\ (forall j, In j before -> mi_Id j <> claimId)
          /\ mi_Id i = claimId
          /\ now <= mi_JoinDeadline i
          /\ mi_InstanceCount i < mi_InstanceLimit i
          /\ mi_InstanceCount (count_instance i) = mi_InstanceCount i + 1
          /\ mi_InstanceLimit (count_instance i) = mi_InstanceLimit i)
    /\ (forall invitations',
           CLAIM now claimId invitations = Some invitations' ->
           Forall within_limit invitations -> Forall within_limit invitations')
    /\ (forall before i after,
           invitations = before ++ i :: after ->
           (forall j, In j before -> mi_Id j <> claimId) ->
           mi_Id i = claimId ->
           (mi_InstanceLimit i <= mi_InstanceCount i \/ mi_JoinDeadline i < now ->
            CLAIM now claimId invitations = None)
           /\ (now <= mi_JoinDeadline i /\ mi_InstanceCount i < mi_InstanceLimit i ->
               CLAIM now claimId invitations = Some (before ++ count_instance i :: after))).
Proof.
  intros invitations. split; [|split].
  - intros invitations' H.
    destruct (CLAIM_success _ H) as [before [i [after [H1 [H2 [H3 [H4 H5]]]]]]].
    apply claimable_spec in H5 as [Hd Hc].
    exists before, i, after. repeat split; auto.
  - intros invitations' H Hall.
    destruct (CLAIM_success _ H) as [before [i [after [H1 [H2 [H3 [H4 H5]]]]]]].
    apply claimable_spec in H5 as [Hd Hc]. subst invitations invitations'.
    apply Forall_app in Hall as [Hb Hia]. inversion Hia as [|? ? Hi Ha]; subst.
    apply Forall_app. split; [exact Hb|]. constructor; [|exact Ha].
    unfold within_limit in *. cbn. lia.
  - intros before i after -> Hbefore Hid. split.
    + intros Hbad. apply CLAIM_refused; auto.
      destruct (claimable now i) eqn:Hc; [|reflexivity].
      apply claimable_spec in Hc. lia.
    + intros Hok. apply CLAIM_granted; auto. now apply claimable_spec.
Qed.

End Admission.

(** ** The properties on concrete runs *)

(** The expiration scenarios of the specification.  With no end time and a
    default CA lifetime of 365 days, a network starting 2024-01-01T00:00Z
    gets a request that expires 365 days later, 2024-12-31T00:00Z (2024 is
    a leap year); with an end time of 2024-06-01T00:00Z and a DeleteDelay
    of 30 days, one that expires 2024-07-01T00:00Z. *)
Example expiration_scenarios :
  ca_expiration seconds_to_ms (days 365) Scenario.open_net = Some 1735603200000
  /\ ca_expiration seconds_to_ms (days 365) Scenario.bounded_net = Some 1719792000000.
Proof. split; reflexivity. Qed.

Lemma processNewNetworks_creates_vanCA_request_witness :
  fst (processNewNetworks seconds_to_ms (days 365) Scenario.now "req-1" false no_failure
                          Scenario.intake_world) = Ok tt
  /\ CertificateRequests
       (store (snd (processNewNetworks seconds_to_ms (days 365) Scenario.now "req-1" false
                                       no_failure Scenario.intake_world)))
     = [mkCertificateRequest "req-1" vanCA (Some Scenario.now) (Some Scenario.t_2024_01_01)
                             (Some 1735603200000) None (Some "net-1") None None false]
  /\ map (@an_OperStatus Z)
         (ApplicationNetworks
            (store (snd (processNewNetworks seconds_to_ms (days 365) Scenario.now "req-1"
                                            false no_failure Scenario.intake_world))))
     = ["cert_request_created"].
Proof.
  pose proof (@processNewNetworks_creates_vanCA_request
                Z seconds_to_ms (days 365) Scenario.now "req-1" Scenario.intake_world
                Scenario.open_net 1735603200000 eq_refl eq_refl eq_refl eq_refl) as H.
  cbv zeta in H. destruct H as (H1 & _ & _ & H4 & H5 & _).
  split; [exact H1|]. split; [exact H4|]. rewrite H5. reflexivity.
Defined.

(** Successive passes take the due requests in creation order, and never
    the request that is due in the future, although it was created first. *)
Example passes_follow_creation_order :
  select_actionable_request Scenario.now (store Scenario.queue_world) = [Scenario.r1]
  /\ select_actionable_request Scenario.now (store (Scenario.pass Scenario.queue_world))
     = [Scenario.r2]
  /\ select_actionable_request
       Scenario.now (store (Scenario.pass (Scenario.pass Scenario.queue_world)))
     = [Scenario.r3]
  /\ select_actionable_request
       Scenario.now
       (store (Scenario.pass (Scenario.pass (Scenario.pass Scenario.queue_world))))
     = [].
Proof. repeat split; vm_compute; reflexivity. Qed.

(** C1 (counterexample).  A pass that finds a 'new' network and inserts
    no request for it: the network with neither a StartTime nor an
    EndTime, on a store that accepts every statement; and the network of
    the scenario when the store rejects the update of its status.  In both
    the network is still 'new' after the pass. *)
Lemma found_network_gets_no_request :
  select_new_network (Scenario.tables [Scenario.timeless_net] []) = [Scenario.timeless_net]
  /\ store (snd (processNewNetworks seconds_to_ms (days 365) Scenario.now "req-1" false
                                    no_failure
                                    (Scenario.world
                                       (Scenario.tables [Scenario.timeless_net] []))))
     = Scenario.tables [Scenario.timeless_net] []
  /\ select_new_network (store Scenario.intake_world) = [Scenario.open_net]
  /\ store (snd (processNewNetworks seconds_to_ms (days 365) Scenario.now "req-1" false
                                    fail_on_status_update Scenario.intake_world))
     = Scenario.tables [Scenario.open_net] [].
Proof. repeat split; vm_compute; reflexivity. Qed.

Lemma processNewNetworks_stalls_without_times_witness :
  CertificateRequests
    (store (snd (processNewNetworks seconds_to_ms (days 365) Scenario.now "req-1" false
                                    no_failure
                                    (Scenario.world
                                       (Scenario.tables [Scenario.timeless_net] [])))))
  = []
  /\ select_new_network
       (store (snd (processNewNetworks seconds_to_ms (days 365) Scenario.now "req-1" false
                                       no_failure
                                       (Scenario.world
                                          (Scenario.tables [Scenario.timeless_net] [])))))
     = [Scenario.timeless_net]
  /\ timers (snd (processNewNetworks seconds_to_ms (days 365) Scenario.now "req-1" false
                                     no_failure
                                     (Scenario.world
                                        (Scenario.tables [Scenario.timeless_net] []))))
     = [(NewNetworksWorker, 10000)].
Proof.
  pose proof (@processNewNetworks_stalls_without_times
                Z seconds_to_ms (days 365) Scenario.now "req-1"
                (Scenario.world (Scenario.tables [Scenario.timeless_net] []))
                Scenario.timeless_net eq_refl eq_refl eq_refl eq_refl)
    as (Hrun & _ & _ & Hreqs & Hsel & _).
  split; [exact Hreqs|]. split; [exact Hsel|]. now rewrite Hrun.
Defined.

Lemma processCertificateRequests_selects_earliest_eligible_witness :
  (exists r tr,
      select_actionable_request Scenario.now (store Scenario.queue_world) = [r]
      /\ cr_CreatedTime r = Some tr
      /\ tr <= 1000 /\ tr <= 2000 /\ tr <= 3000)
  /\ cr_Id Scenario.r2 <> cr_Id Scenario.r1
  /\ exists t1, cr_CreatedTime Scenario.r1 = Some t1 /\ t1 <= 2000.
Proof.
  pose proof (@processCertificateRequests_selects_earliest_eligible
                Z Scenario.now (store Scenario.queue_world)) as H.
  destruct H as (_ & Hmin & Hsome & _ & Hnext & _).
  split.
  - assert (Hdue2 : 2000 <= Scenario.now) by (vm_compute; discriminate).
    assert (Hdue3 : 3000 <= Scenario.now) by (vm_compute; discriminate).
    destruct (Hsome Scenario.r3 3000 (or_introl eq_refl) eq_refl Hdue3 eq_refl) as [r Hr].
    assert (Hin : In r (select_actionable_request Scenario.now (store Scenario.queue_world)))
      by (rewrite Hr; now left).
    destruct (Hmin r Hin) as (_ & _ & _ & Hle).
    destruct (Hle Scenario.r1 2000 1000 (or_intror (or_intror (or_introl eq_refl)))
                  eq_refl Hdue2 eq_refl eq_refl) as [tr [Htr H1]].
    destruct (Hle Scenario.r2 2000 2000
                  (or_intror (or_intror (or_intror (or_introl eq_refl))))
                  eq_refl Hdue2 eq_refl eq_refl) as [tr2 [Htr2 H2]].
    destruct (Hle Scenario.r3 3000 3000 (or_introl eq_refl) eq_refl Hdue3 eq_refl eq_refl)
      as [tr3 [Htr3 H3]].
    exists r, tr. rewrite Htr in Htr2, Htr3.
    injection Htr2 as <-. injection Htr3 as <-. auto.
  - destruct (Hnext "unused" Scenario.now Scenario.queue_world Scenario.r1 Scenario.r2 2000
                    eq_refl eq_refl eq_refl eq_refl eq_refl ltac:(vm_compute; discriminate))
      as [Hid Hle].
    split; [exact Hid|]. exact (Hle 2000 eq_refl).
Defined.

Lemma processCertificateRequests_only_marks_processing_witness :
  CertificateRequests (store (Scenario.pass Scenario.single_world))
  = [set_Processing true Scenario.r1]
  /\ TlsCertificates (store (Scenario.pass Scenario.single_world)) = [].
Proof.
  pose proof (@processCertificateRequests_only_marks_processing
                Z Scenario.now "unused" Scenario.single_world Scenario.r1
                eq_refl eq_refl) as H.
  cbv zeta in H. destruct H as (_ & _ & H3 & _ & H5 & _).
  split; [exact H3 | exact H5].
Defined.

(** C3 (counterexample).  A due request and no certificate: the pass
    selects the request and commits, and at the commit no TlsCertificate
    row has been inserted and the request row is still there. *)
Lemma fulfillment_inserts_no_certificate :
  select_actionable_request Scenario.now (store Scenario.single_world) = [Scenario.r1]
  /\ fst (processCertificateRequests Scenario.now "unused" false no_failure
                                     Scenario.single_world) = Ok tt
  /\ TlsCertificates (store (Scenario.pass Scenario.single_world)) = []
  /\ CertificateRequests (store (Scenario.pass Scenario.single_world))
     = [set_Processing true Scenario.r1]
  /\ ~ fulfilled_by_commit (store Scenario.single_world)
                           (store (Scenario.pass Scenario.single_world)) Scenario.r1.
Proof.
  repeat split; try (vm_compute; reflexivity).
  intros [[c [Hc _]] _]. exact Hc.
Qed.

Lemma worker_pass_is_all_or_nothing_witness :
  store (snd (processNewNetworks seconds_to_ms (days 365) Scenario.now "req-1" false
                                 fail_on_status_update Scenario.intake_world))
  = store Scenario.intake_world
  /\ txn (snd (processNewNetworks seconds_to_ms (days 365) Scenario.now "req-1" false
                                  fail_on_status_update Scenario.intake_world))
     = None.
Proof.
  pose proof (@worker_pass_is_all_or_nothing
                Z seconds_to_ms (days 365) Scenario.now "req-1" fail_on_status_update
                Scenario.intake_world) as (H & _ & _).
  assert (Hthrow : processNewNetworks_throws
                     seconds_to_ms (days 365) Scenario.now "req-1" fail_on_status_update
                     Scenario.intake_world (QueryError "statement rejected"))
    by (eexists; reflexivity).
  destruct (H false _ Hthrow) as [Hs Ht].
  split; [exact Hs | exact (Ht eq_refl eq_refl)].
Defined.

(** The same failure, seen from outside: the pass ends normally, the
    network is still 'new', no request row exists, the client is back in
    the pool, and the next pass is ten seconds away. *)
Example rollback_after_insert :
  processNewNetworks seconds_to_ms (days 365) Scenario.now "req-1" false
                     fail_on_status_update Scenario.intake_world
  = (Ok tt,
     mkWorld (store Scenario.intake_world) None 0 [(NewNetworksWorker, 10000)]
             [LogRollbackNewNetwork (QueryError "statement rejected"); LogNewNetwork "open"]
             []).
Proof. reflexivity. Qed.

(** A network with neither a start nor an end time has no expiration to
    compute: reading its start time throws, and the pass rolls back. *)
Example network_without_times :
  processNewNetworks seconds_to_ms (days 365) Scenario.now "req-1" false no_failure
                     (Scenario.world (Scenario.tables [Scenario.timeless_net] []))
  = (Ok tt,
     mkWorld (Scenario.tables [Scenario.timeless_net] []) None 0
             [(NewNetworksWorker, 10000)]
             [LogRollbackNewNetwork
                (TypeError "Cannot read properties of null (reading 'getTime')");
              LogNewNetwork "timeless"]
             []).
Proof. reflexivity. Qed.

(** The fulfillment worker likewise: when the store rejects the update
    of the Processing flag, the request is as it was. *)
Example rollback_of_claim :
  processCertificateRequests Scenario.now "unused" false fail_on_processing_update
                             Scenario.single_world
  = (Ok tt,
     mkWorld (store Scenario.single_world) None 0 [(CertificateRequestsWorker, 10000)]
             [LogRollbackCertRequest (QueryError "statement rejected");
              LogProcessingRequest "req-1" vanCA]
             []).
Proof. reflexivity. Qed.

(** An invitation for two instances: two claims succeed, the third
    fails; and a claim after the deadline fails. *)
Example claims_up_to_the_limit :
  CLAIM 4000 "inv-1" [Scenario.invitation 2 0] = Some [Scenario.invitation 2 1]
  /\ CLAIM 4000 "inv-1" [Scenario.invitation 2 1] = Some [Scenario.invitation 2 2]
  /\ CLAIM 4000 "inv-1" [Scenario.invitation 2 2] = None
  /\ CLAIM 5001 "inv-1" [Scenario.invitation 2 0] = None.
Proof. repeat split; reflexivity. Qed.

Lemma CLAIM_admission_control_witness :
  CLAIM 4000 "inv-1" [Scenario.invitation 2 1] = Some [Scenario.invitation 2 2]
  /\ CLAIM 4000 "inv-1" [Scenario.invitation 2 2] = None.
Proof.
  split.
  - pose proof (@CLAIM_admission_control 4000 "inv-1" [Scenario.invitation 2 1])
      as (_ & _ & H).
    destruct (H [] (Scenario.invitation 2 1) [] eq_refl (fun j Hj => False_ind _ Hj) eq_refl)
      as [_ Hok].
    apply Hok. cbn. lia.
  - pose proof (@CLAIM_admission_control 4000 "inv-1" [Scenario.invitation 2 2])
      as (_ & _ & H).
    destruct (H [] (Scenario.invitation 2 2) [] eq_refl (fun j Hj => False_ind _ Hj) eq_refl)
      as [Hbad _].
    apply Hbad. cbn. lia.
Defined.

(** A message of version 2 is rejected before any handler runs, as is one
    with the op-code 'SOLICIT', and one without a version. *)
Example version_gate :
  DispatchMessage (mkEnvelope (VNum 2) (VStr "HB") (VStr "site-1") (VObj []) (VStr "")
                              VUndefined VUndefined VUndefined)
                  returns3 returnsN returns2 returns2
  = ([], Throw (Error "Unsupported protocol version 2"))
  /\ DispatchMessage (mkEnvelope (VNum 1) (VStr "SOLICIT") (VStr "site-1") VUndefined
                                 VUndefined VUndefined VUndefined VUndefined)
                     returns3 returnsN returns2 returns2
     = ([], Throw (Error "Unknown op-code SOLICIT"))
  /\ DispatchMessage (mkEnvelope VUndefined (VStr "HB") (VStr "site-1") (VObj []) (VStr "")
                                 VUndefined VUndefined VUndefined)
                     returns3 returnsN returns2 returns2
     = ([], Throw (Error "Unsupported protocol version undefined")).
Proof. repeat split; reflexivity. Qed.

(** What [!=] lets through the version gate beside the number 1, and what
    it does not. *)
Example loose_versions :
  map loosely_equal_VERSION
      [VNum 1; VBool true; VStr "1"; VStr " 1 "; VStr "1.0"; VStr "+1"; VStr "01";
       VStr "1e0"; VStr "10e-1"; VStr "0x1"; VStr "0b1"; VArr [VNum 1]; VArr [VStr "1"];
       VArr [VArr [VNum 1]]; VStr "0.99999999999999999"]
  = [true; true; true; true; true; true; true; true; true; true; true; true; true; true;
     true]
  /\ map loosely_equal_VERSION
         [VNum 2; VNum 0; VNum (-1); VBool false; VNull; VUndefined; VStr ""; VStr "one";
          VStr "2"; VStr "-1"; VStr "1,0"; VStr "1 1"; VStr "0x"; VStr "1e"; VStr "Infinity";
          VStr "0.9999999999999999"; VStr "1.0000000000000002"; VArr []; VArr [VNull];
          VArr [VBool true]; VArr [VNum 1; VNum 1]; VObj []; VObj [("version", "1")]]
     = [false; false; false; false; false; false; false; false; false; false; false; false;
        false; false; false; false; false; false; false; false; false; false; false].
Proof. split; vm_compute; reflexivity. Qed.

(** C6 (counterexample).  A version that is not 1 is accepted when it is
    loosely equal to 1: the message with version [true], with version
    ['1'] or with version [[1]] reaches its handler and the call returns.
    And a call on a message of version 1 with a known op-code throws when
    the handler throws, after the handler was invoked. *)
Lemma DispatchMessage_accepts_loose_version :
  DispatchMessage (mkEnvelope (VBool true) (VStr "HB") (VStr "site-1") (VObj []) (VStr "")
                              VUndefined VUndefined VUndefined)
                  returns3 returnsN returns2 returns2
  = ([OnHeartbeat (VStr "site-1") (VObj []) (VStr "")], Ok tt)
  /\ VBool true <> VNum 1
  /\ DispatchMessage (mkEnvelope (VStr "1") (VStr "GET") (VStr "site-1") VUndefined VUndefined
                                 (VStr "links") VUndefined VUndefined)
                     returns3 returnsN returns2 returns2
     = ([OnGet (VStr "site-1") (VStr "links")], Ok tt)
  /\ VStr "1" <> VNum 1
  /\ DispatchMessage (mkEnvelope (VArr [VNum 1]) (VStr "CLAIM") VUndefined VUndefined
                                 VUndefined VUndefined (VStr "inv-1") (VStr "edge"))
                     returns3 returnsN returns2 returns2
     = ([OnClaim (VStr "inv-1") (VStr "edge")], Ok tt)
  /\ VArr [VNum 1] <> VNum 1
  /\ DispatchMessage (GetObject (VStr "site-1") (VStr "links"))
                     returns3 returnsN (fun _ _ => Some (Error "no such object")) returns2
     = ([OnGet (VStr "site-1") (VStr "links")], Throw (Error "no such object"))
  /\ version (GetObject (VStr "site-1") (VStr "links")) = VNum 1
  /\ op (GetObject (VStr "site-1") (VStr "links")) = VStr "GET".
Proof. repeat split; try discriminate; vm_compute; reflexivity. Qed.

Lemma DispatchMessage_throws_iff_rejected_witness :
  fst (DispatchMessage (mkEnvelope (VNum 2) (VStr "HB") (VStr "site-1") (VObj []) (VStr "")
                                   VUndefined VUndefined VUndefined)
                       returns3 returnsN returns2 returns2) = []
  /\ exists c, fst (DispatchMessage (GetObject (VStr "site-1") (VStr "links"))
                                    returns3 returnsN returns2 returns2) = [c].
Proof.
  split.
  - pose proof (@DispatchMessage_throws_iff_rejected
                  returns3 returnsN returns2 returns2
                  (mkEnvelope (VNum 2) (VStr "HB") (VStr "site-1") (VObj []) (VStr "")
                              VUndefined VUndefined VUndefined)) as (_ & H & _).
    apply H. left. reflexivity.
  - pose proof (@DispatchMessage_throws_iff_rejected
                  returns3 returnsN returns2 returns2
                  (GetObject (VStr "site-1") (VStr "links"))) as (_ & _ & H & _).
    apply H. intros [Hv|Hop]; [discriminate Hv|].
    apply Hop. right. left. reflexivity.
Defined.

(** C7 (counterexample).  [Heartbeat] given an undefined address builds a
    message whose address is the empty string, and that, not the
    argument, is what the heartbeat handler receives. *)
Lemma Heartbeat_undefined_address :
  DispatchMessage (Heartbeat (VStr "site-1") (VObj [("links", "2f1a")]) VUndefined)
                  returns3 returnsN returns2 returns2
  = ([OnHeartbeat (VStr "site-1") (VObj [("links", "2f1a")]) (VStr "")], Ok tt)
  /\ OnHeartbeat (VStr "site-1") (VObj [("links", "2f1a")]) (VStr "")
     <> OnHeartbeat (VStr "site-1") (VObj [("links", "2f1a")]) VUndefined.
Proof. split; [reflexivity | discriminate]. Qed.

Lemma construct_then_dispatch_witness :
  fst (DispatchMessage (Heartbeat (VStr "site-1") (VObj []) (VStr "amqp://site-1"))
                       returns3 returnsN returns2 returns2)
  = [OnHeartbeat (VStr "site-1") (VObj []) (VStr "amqp://site-1")].
Proof.
  pose proof (@construct_then_dispatch
                returns3 returnsN returns2 returns2
                (VStr "site-1") (VObj []) (VStr "amqp://site-1") VUndefined VUndefined
                VUndefined) as (_ & H & _).
  apply H. discriminate.
Defined.

(** The three refusals and the acceptance of [addHostToAccessPoint] on
    the backbone site of the scenario. *)
Example host_added_once_checks_pass :
  let w := Scenario.world (Scenario.tables [] []) in
  let call key := addHostToAccessPoint Scenario.now "unused" false no_failure "bs-1" key
                                       (Some "manage.example") (Some "45670") w in
  call "skx-bogus" = (Ok 0, with_logs [LogHostAddFailed (Error "Invalid ingress key: skx-bogus")] w)
  /\ fst (call "skx-member") = Ok 0 /\ store (snd (call "skx-member")) = store w
  /\ fst (call "skx-peer") = Ok 0 /\ store (snd (call "skx-peer")) = store w
  /\ fst (call "skx-manage") = Ok 1
  /\ BackboneAccessPoints (store (snd (call "skx-manage")))
     = [mkBackboneAccessPoint "ap-manage" (Some "manage.example") (Some "45670") "new";
        Scenario.access "ap-member" (Some "edge.example") "ready";
        Scenario.access "ap-peer" None "new"].
Proof. repeat split; reflexivity. Qed.


(** * Further properties of the units of work *)

(** ** Every path of a pass *)

Section Paths.

Variable interval : Type.
Variable IntervalMilliseconds : interval -> Z.
Variable DefaultCaExpiration : interval.

Local Abbreviation intake := (processNewNetworks IntervalMilliseconds DefaultCaExpiration).
Local Abbreviation expiration := (ca_expiration IntervalMilliseconds DefaultCaExpiration).

(** A worker that gets no client from the pool does nothing at all. *)
Lemma processNewNetworks_without_client now fresh fails (w : World interval) :
  intake now fresh true fails w = (Throw (Error "no client available"), w).
Proof. destruct w; reflexivity. Qed.

Lemma processCertificateRequests_without_client now fresh fails (w : World interval) :
  processCertificateRequests now fresh true fails w
  = (Throw (Error "no client available"), w).
Proof. destruct w; reflexivity. Qed.

(** X1.  A pass of either worker that got a client hands it back on every
    path, whatever the store rejects (the ROLLBACK included): the number
    of leased clients after the pass is the number before it. *)
Theorem workers_release_client :
  forall now fresh fails (w : World interval),
    leased (snd (intake now fresh false fails w)) = leased w
    /\ leased (snd (processCertificateRequests now fresh false fails w)) = leased w.
Proof.
  intros now fresh fails w. split.
  - apply processNewNetworks_releases.
  - apply processCertificateRequests_releases.
Qed.

(** The timer a pass of the intake worker sets. *)
Lemma processNewNetworks_reschedules now fresh fails (w : World interval) :
  exists d,
    timers (snd (intake now fresh false fails w)) = (NewNetworksWorker, d) :: timers w
    /\ (d = 0 \/ d = 2000 \/ d = 10000)
    /\ (d = 0 -> exists row, select_new_network (view w) = [row]).
Proof.
  destruct w as [s [t|] le ti lo re]; unfold_units;
    branches;
    (eexists; split; [reflexivity|]; split; [tauto|]; intros Hd; try discriminate; eauto).
Qed.

Lemma processCertificateRequests_reschedules now fresh fails (w : World interval) :
  exists d,
    timers (snd (processCertificateRequests now fresh false fails w))
    = (CertificateRequestsWorker, d) :: timers w
    /\ (d = 0 \/ d = 2000 \/ d = 10000)
    /\ (d = 0 -> exists row, select_actionable_request now (view w) = [row]).
Proof.
  destruct w as [s [t|] le ti lo re]; unfold_units;
    branches;
    (eexists; split; [reflexivity|]; split; [tauto|]; intros Hd; try discriminate; eauto).
Qed.

(** X2.  A pass of either worker that got a client sets exactly one timer,
    for the same worker, with a delay of 0, 2000 or 10000 ms, whatever the
    store rejects; the delay is 0 only when the SELECT returned a row; it
    is 10000 when the [try] block throws and the ROLLBACK is accepted.  A
    pass that gets no client from the pool sets no timer: the worker is
    not run again. *)
Theorem workers_reschedule_once :
  forall now fresh fails (w : World interval),
    (exists d,
        timers (snd (intake now fresh false fails w)) = (NewNetworksWorker, d) :: timers w
        /\ (d = 0 \/ d = 2000 \/ d = 10000)
        /\ (d = 0 -> exists row, select_new_network (view w) = [row])
        /\ (forall e, processNewNetworks_throws IntervalMilliseconds DefaultCaExpiration
                                                now fresh fails w e ->
                      fails unit ROLLBACK = false -> d = 10000))
    /\ (exists d,
           timers (snd (processCertificateRequests now fresh false fails w))
           = (CertificateRequestsWorker, d) :: timers w
           /\ (d = 0 \/ d = 2000 \/ d = 10000)
           /\ (d = 0 -> exists row, select_actionable_request now (view w) = [row])
           /\ (forall e, processCertificateRequests_throws now fresh fails w e ->
                         fails unit ROLLBACK = false -> d = 10000))
    /\ timers (snd (intake now fresh true fails w)) = timers w
    /\ timers (snd (processCertificateRequests now fresh true fails w)) = timers w.
Proof.
  intros now fresh fails w. split; [|split; [|split]].
  - destruct (processNewNetworks_reschedules now fresh fails w) as [d [Ht [Hd H0]]].
    exists d. repeat split; auto. intros e Hthrow Hrb.
    rewrite (processNewNetworks_closes_transaction Hthrow Hrb) in Ht. cbn in Ht.
    now injection Ht.
  - destruct (processCertificateRequests_reschedules now fresh fails w) as [d [Ht [Hd H0]]].
    exists d. repeat split; auto. intros e Hthrow Hrb.
    rewrite (processCertificateRequests_closes_transaction Hthrow Hrb) in Ht. cbn in Ht.
    now injection Ht.
  - now rewrite processNewNetworks_without_client.
  - now rewrite processCertificateRequests_without_client.
Qed.

(** X3.  Whatever fails, a pass of the intake worker on a client with no
    transaction left open commits either nothing or the whole transition:
    the committed tables after it are those before it, or those with the
    request inserted and the status of the network advanced, never one
    without the other. *)
Theorem processNewNetworks_commits_all_or_nothing :
  forall now fresh pool_fails fails (w : World interval),
    txn w = None ->
    store (snd (intake now fresh pool_fails fails w)) = store w
    \/ (exists row expire,
           select_new_network (store w) = [row]
           /\ expiration row = Some expire
           /\ request_id_taken fresh (store w) = false
           /\ fst (intake now fresh pool_fails fails w) = Ok tt
           /\ store (snd (intake now fresh pool_fails fails w))
              = with_ApplicationNetworks
                  (map (fun n => if (an_Id n =? an_Id row)%string
                                 then set_OperStatus "cert_request_created" n
                                 else n)
                       (ApplicationNetworks (store w)))
                  (with_CertificateRequests
                     (CertificateRequests (store w)
                        ++ [vanCA_request now fresh (an_StartTime row) expire (an_Id row)])
                     (store w))).
Proof.
  intros now fresh pool_fails fails w Htxn.
  destruct w as [s tx le ti lo re]; cbn in Htxn; subst tx.
  destruct pool_fails; [now left|].
  unfold_units.
  branches; try (left; reflexivity); try congruence.
  all: right; eexists; eexists; split; [reflexivity|]; split;
    [ unfold ca_expiration;
      repeat match goal with
             | H : an_EndTime _ = _ |- _ => rewrite H
             | H : an_StartTime _ = _ |- _ => rewrite H
             end; reflexivity
    | repeat split;
      repeat match goal with
             | H : an_StartTime _ = _ |- _ => rewrite H
             end; reflexivity ].
Qed.

(** X4.  Whatever fails, a pass of the fulfillment worker on a client with
    no transaction left open commits either nothing or the claim of the
    request its SELECT returned: no other committed row changes. *)
Theorem processCertificateRequests_commits_all_or_nothing :
  forall now fresh pool_fails fails (w : World interval),
    txn w = None ->
    store (snd (processCertificateRequests now fresh pool_fails fails w)) = store w
    \/ (exists r,
           select_actionable_request now (store w) = [r]
           /\ fst (processCertificateRequests now fresh pool_fails fails w) = Ok tt
           /\ store (snd (processCertificateRequests now fresh pool_fails fails w))
              = with_CertificateRequests
                  (map (fun x => if (cr_Id x =? cr_Id r)%string
                                 then set_Processing true x else x)
                       (CertificateRequests (store w)))
                  (store w)).
Proof.
  intros now fresh pool_fails fails w Htxn.
  destruct w as [s tx le ti lo re]; cbn in Htxn; subst tx.
  destruct pool_fails; [now left|].
  unfold_units.
  branches; try (left; reflexivity); try (left; now destruct s); try congruence.
  all: right; eexists; repeat split; reflexivity.
Qed.

End Paths.

(** ** Progress of the pipeline *)

Lemma filter_length_le (A : Type) (p : A -> bool) (l : list A) :
  (List.length (filter p l) <= List.length l)%nat.
Proof.
  induction l as [|x l IH]; cbn; [lia|]. destruct (p x); cbn; lia.
Qed.

Lemma filter_length_lt (A : Type) (p : A -> bool) (l : list A) (x : A) :
  In x l -> p x = false -> (List.length (filter p l) < List.length l)%nat.
Proof.
  induction l as [|y l IH]; cbn; [tauto|]. intros [<-|Hin] Hp.
  - rewrite Hp. pose proof (filter_length_le p l). lia.
  - specialize (IH Hin Hp). destruct (p y); cbn; lia.
Qed.

Section Progress.

Variable interval : Type.
Variable IntervalMilliseconds : interval -> Z.
Variable DefaultCaExpiration : interval.

Local Abbreviation intake := (processNewNetworks IntervalMilliseconds DefaultCaExpiration).
Local Abbreviation expiration := (ca_expiration IntervalMilliseconds DefaultCaExpiration).
Local Abbreviation advance id :=
  (fun n : ApplicationNetwork interval =>
     if (an_Id n =? id)%string then set_OperStatus "cert_request_created" n else n).

Lemma select_new_network_firstn (t : Tables interval) :
  select_new_network t = firstn 1 (new_networks t).
Proof. reflexivity. Qed.

Lemma select_new_network_nil (t : Tables interval) :
  select_new_network t = [] -> new_networks t = [].
Proof.
  rewrite select_new_network_firstn. now destruct (new_networks t).
Qed.

Lemma select_new_network_head (t : Tables interval) (row : ApplicationNetwork interval) :
  select_new_network t = [row] -> In row (new_networks t).
Proof.
  rewrite select_new_network_firstn. intros H. apply firstn_1_In. rewrite H. now left.
Qed.

(** Advancing the networks with one Id leaves as 'new' the new networks
    with another Id. *)
Lemma new_networks_advance (id : uuid) (l : list (ApplicationNetwork interval)) :
  filter (@is_new interval) (map (advance id) l)
  = filter (fun n => negb (an_Id n =? id)%string) (filter (@is_new interval) l).
Proof.
  induction l as [|n l IH]; [reflexivity|]. cbn [map filter].
  destruct (an_Id n =? id)%string eqn:Hid.
  - cbn. destruct (is_new n); cbn; rewrite ?Hid; cbn; exact IH.
  - destruct (is_new n); cbn; rewrite ?Hid; cbn; now rewrite IH.
Qed.

Lemma request_id_taken_false (u : uuid) (t : Tables interval) :
  request_id_taken u t = false <->
  forall r, In r (CertificateRequests t) -> cr_Id r <> u.
Proof.
  unfold request_id_taken. split.
  - intros H r Hr Hid.
    assert (Hex : existsb (fun r => (cr_Id r =? u)%string) (CertificateRequests t) = true).
    { apply existsb_exists. exists r. split; [exact Hr|]. now apply String.eqb_eq. }
    congruence.
  - intros H. destruct (existsb _ _) eqn:Hex; [|reflexivity].
    apply existsb_exists in Hex as [r [Hr Hid]]. apply String.eqb_eq in Hid.
    exfalso. now apply (H r).
Qed.

(** A pass of the intake worker that finds nothing and meets no failure. *)
Lemma processNewNetworks_idle now fresh (w : World interval) :
  txn w = None ->
  select_new_network (store w) = [] ->
  intake now fresh false no_failure w =
  (Ok tt,
   mkWorld (store w) None (leased w) ((NewNetworksWorker, 2000) :: timers w)
           (logs w) (res w)).
Proof.
  intros Htxn Hsel.
  destruct w as [[a b c d e f] tx le ti lo re]; cbn in Htxn, Hsel; subst tx.
  unfold_units. unfold no_failure. cbn. rewrite Hsel. reflexivity.
Qed.

(** What a committed pass leaves to do. *)
Lemma processNewNetworks_leaves now fresh (w : World interval) row expire :
  txn w = None ->
  select_new_network (store w) = [row] ->
  request_id_taken fresh (store w) = false ->
  expiration row = Some expire ->
  new_networks (store (snd (intake now fresh false no_failure w)))
  = filter (fun n => negb (an_Id n =? an_Id row)%string) (new_networks (store w)).
Proof.
  intros Htxn Hsel Hfresh Hexp.
  rewrite (@processNewNetworks_commits _ IntervalMilliseconds DefaultCaExpiration now fresh w _ _ Htxn Hsel Hfresh Hexp).
  unfold new_networks. cbn. apply new_networks_advance.
Qed.

(** X5.  A pass of the intake worker that finds a network and commits
    takes it off the backlog: the networks still 'new' afterwards are
    those that were 'new' before and have another Id, so none of them has
    the Id of the network found, there are strictly fewer of them, and the
    next SELECT cannot return a network with that Id. *)
Theorem processNewNetworks_shrinks_backlog :
  forall now fresh (w : World interval) row expire,
    txn w = None ->
    select_new_network (store w) = [row] ->
    request_id_taken fresh (store w) = false ->
    expiration row = Some expire ->
    let t' := store (snd (intake now fresh false no_failure w)) in
    new_networks t'
    = filter (fun n => negb (an_Id n =? an_Id row)%string) (new_networks (store w))
    /\ (List.length (new_networks t') < List.length (new_networks (store w)))%nat
    /\ (forall n, In n (select_new_network t') -> an_Id n <> an_Id row).
Proof.
  intros now fresh w row expire Htxn Hsel Hfresh Hexp t'. subst t'.
  pose proof (processNewNetworks_leaves now fresh w Htxn Hsel Hfresh Hexp) as Hleft.
  split; [exact Hleft|]. split.
  - rewrite Hleft. apply filter_length_lt with (x := row).
    + now apply select_new_network_head.
    + now rewrite String.eqb_refl.
  - intros n Hn. rewrite select_new_network_firstn in Hn. apply firstn_1_In in Hn.
    rewrite Hleft in Hn. apply filter_In in Hn as [_ Hid].
    apply negb_true_iff in Hid. now apply String.eqb_neq.
Qed.

(** X7.  The request a committed pass of the intake worker inserts for a
    network is selected by the fulfillment worker only at a time that is
    not before the network's StartTime, and never when the network has no
    StartTime (its RequestTime is then NULL); from the StartTime on, the
    SELECT of the fulfillment worker returns a request. *)
Theorem inserted_request_waits_for_start :
  forall now fresh (w : World interval) row expire,
    txn w = None ->
    select_new_network (store w) = [row] ->
    request_id_taken fresh (store w) = false ->
    expiration row = Some expire ->
    let t' := store (snd (intake now fresh false no_failure w)) in
    (forall now' r,
        In r (select_actionable_request now' t') -> cr_Id r = fresh ->
        r = vanCA_request now fresh (an_StartTime row) expire (an_Id row)
        /\ exists s, an_StartTime row = Some s /\ s <= now')
    /\ (forall now' s,
           an_StartTime row = Some s -> s <= now' ->
           exists r, select_actionable_request now' t' = [r]).
Proof.
  intros now fresh w row expire Htxn Hsel Hfresh Hexp t'. subst t'.
  rewrite (@processNewNetworks_commits _ IntervalMilliseconds DefaultCaExpiration now fresh w _ _ Htxn Hsel Hfresh Hexp). cbn [snd store].
  split.
  - intros now' r Hr Hid.
    apply select_actionable_request_In in Hr as [Hin Hact]. cbn in Hin.
    apply in_app_or in Hin as [Hold|[<-|[]]].
    + exfalso. now apply (proj1 (request_id_taken_false fresh (store w)) Hfresh r).
    + split; [reflexivity|].
      apply actionable_spec in Hact as [[s [Hs Hle]] _]. cbn in Hs. now exists s.
  - intros now' s Hs Hle.
    apply select_actionable_request_some
      with (x := vanCA_request now fresh (an_StartTime row) expire (an_Id row)).
    + cbn. apply in_or_app. right. now left.
    + apply actionable_spec. cbn. split; [now exists s | reflexivity].
Qed.

End Progress.

(** ** Runs of passes *)

Section RunsOfPasses.

Variable interval : Type.
Variable IntervalMilliseconds : interval -> Z.
Variable DefaultCaExpiration : interval.

Local Abbreviation intake := (processNewNetworks IntervalMilliseconds DefaultCaExpiration).
Local Abbreviation expiration := (ca_expiration IntervalMilliseconds DefaultCaExpiration).
Local Abbreviation run := (run_passes IntervalMilliseconds DefaultCaExpiration).

Lemma run_passes_cons (p : Pass interval) (ps : list (Pass interval)) (w : World interval) :
  run (p :: ps) w = run ps (run_pass IntervalMilliseconds DefaultCaExpiration p w).
Proof. reflexivity. Qed.

(** Marking requests leaves a marked request as it is. *)
Lemma marked_request_In (id : uuid) (r : CertificateRequest) (l : list CertificateRequest) :
  cr_Processing r = true -> In r l ->
  In r (map (fun x => if (cr_Id x =? id)%string then set_Processing true x else x) l).
Proof.
  intros Hp Hin. apply in_map_iff. exists r. split; [|exact Hin].
  destruct (cr_Id r =? id)%string; [|reflexivity].
  destruct r. cbn in Hp. subst. reflexivity.
Qed.

Ltac kept :=
  split; [|intros ? Heq; cbn in Heq; try discriminate; injection Heq as <-];
  cbn; auto using marked_request_In, in_or_app.

Lemma processNewNetworks_keeps_request now fresh pool_fails fails
      (w : World interval) (r : CertificateRequest) :
  request_kept r w ->
  request_kept r (snd (intake now fresh pool_fails fails w)).
Proof.
  unfold request_kept.
  destruct w as [s [t|] le ti lo re]; cbn [store txn]; intros [Hs Ht];
    try specialize (Ht _ eq_refl);
    (destruct pool_fails; [cbn; split; [exact Hs | intros ? Heq; try discriminate;
                                                   now injection Heq as <-]|]);
    unfold_units; branches; kept.
Qed.

Lemma processCertificateRequests_keeps_request now fresh pool_fails fails
      (w : World interval) (r : CertificateRequest) :
  cr_Processing r = true ->
  request_kept r w ->
  request_kept r (snd (processCertificateRequests now fresh pool_fails fails w)).
Proof.
  unfold request_kept. intros Hp.
  destruct w as [s [t|] le ti lo re]; cbn [store txn]; intros [Hs Ht];
    try specialize (Ht _ eq_refl);
    (destruct pool_fails; [cbn; split; [exact Hs | intros ? Heq; try discriminate;
                                                   now injection Heq as <-]|]);
    unfold_units; branches; kept.
Qed.

Lemma run_passes_keep_request (ps : list (Pass interval)) (w : World interval)
      (r : CertificateRequest) :
  cr_Processing r = true ->
  request_kept r w ->
  request_kept r (run ps w).
Proof.
  intros Hp. revert w. induction ps as [|p ps IH]; intros w Hk; [exact Hk|].
  rewrite run_passes_cons. apply IH. unfold run_pass.
  destruct (pass_worker p).
  - now apply processNewNetworks_keeps_request.
  - now apply processCertificateRequests_keeps_request.
Qed.

(** X6.  A request that is marked Processing stays as it is through every
    run of passes of the two workers, in any order and whatever fails
    during them: it is still a committed row afterwards, unchanged, and the
    SELECT of the fulfillment worker does not return it, at any time.  No
    pass releases a claimed request. *)
Theorem claimed_request_stays_claimed :
  forall (ps : list (Pass interval)) (w : World interval) (r : CertificateRequest),
    txn w = None ->
    In r (CertificateRequests (store w)) ->
    cr_Processing r = true ->
    In r (CertificateRequests (store (run ps w)))
    /\ forall now', ~ In r (select_actionable_request now' (store (run ps w))).
Proof.
  intros ps w r Htxn Hin Hp. split.
  - assert (Hk : request_kept r w) by (split; [exact Hin | intros t Ht; congruence]).
    destruct (@run_passes_keep_request ps w r Hp Hk) as [H _]. exact H.
  - intros now' Hsel. apply select_actionable_request_In in Hsel as [_ Hact].
    apply actionable_spec in Hact as [_ Hfalse]. congruence.
Qed.

Lemma intake_passes_cons now (u : uuid) (ids : list uuid) (w : World interval) :
  run (intake_passes interval now (u :: ids)) w
  = run (intake_passes interval now ids) (snd (intake now u false no_failure w)).
Proof. reflexivity. Qed.

Lemma select_new_network_singleton (t : Tables interval)
      (row : ApplicationNetwork interval) (l : list (ApplicationNetwork interval)) :
  select_new_network t = row :: l -> l = [].
Proof.
  intros H. pose proof (firstn_1_length (new_networks t)) as Hlen.
  rewrite <- select_new_network_firstn, H in Hlen. cbn in Hlen.
  destruct l; [reflexivity | cbn in Hlen; lia].
Qed.

(** X8.  A backlog is drained.  Passes of the intake worker that meet no
    failure, one per uuid, the uuids distinct and unused, at least as many
    as there are 'new' networks, each of which has an expiration: after
    them no network is 'new', every network that was 'new' has a vanCA
    request naming its Id, and no request that was in the table is lost. *)
Theorem intake_drains_backlog :
  forall now (ids : list uuid) (w : World interval),
    txn w = None ->
    NoDup ids ->
    (forall u, In u ids -> request_id_taken u (store w) = false) ->
    (forall n, In n (new_networks (store w)) -> expiration n <> None) ->
    (List.length (new_networks (store w)) <= List.length ids)%nat ->
    let w' := run (intake_passes interval now ids) w in
    new_networks (store w') = []
    /\ txn w' = None
    /\ (forall n, In n (new_networks (store w)) ->
          exists r, In r (CertificateRequests (store w'))
                    /\ cr_RequestType r = vanCA
                    /\ cr_ApplicationNetwork r = Some (an_Id n))
    /\ (forall r, In r (CertificateRequests (store w)) ->
          In r (CertificateRequests (store w'))).
Proof.
  intros now ids. induction ids as [|u ids IH]; intros w Htxn Hnd Hfresh Hexp Hlen w'.
  - subst w'. cbn in Hlen. cbn.
    assert (Hnil : new_networks (store w) = [])
      by (apply length_zero_iff_nil; lia).
    rewrite Hnil. repeat split; auto. intros n [].
  - subst w'. rewrite intake_passes_cons.
    inversion Hnd as [|? ? Hnotin Hnd']; subst.
    destruct (select_new_network (store w)) as [|row l] eqn:Hsel.
    + pose proof (processNewNetworks_idle IntervalMilliseconds DefaultCaExpiration
                                          now u w Htxn Hsel) as Hidle.
      rewrite Hidle. cbn [snd].
      pose proof (select_new_network_nil _ Hsel) as Hnil.
      destruct (IH (mkWorld (store w) None (leased w) ((NewNetworksWorker, 2000) :: timers w)
                            (logs w) (res w)))
        as (H1 & H2 & H3 & H4); cbn [store txn]; auto.
      * intros v Hv. apply Hfresh. now right.
      * rewrite Hnil. cbn. lia.
    + pose proof (select_new_network_singleton _ Hsel) as ->.
      pose proof (select_new_network_head _ Hsel) as Hrow.
      destruct (expiration row) as [expire|] eqn:Hrowexp;
        [|exfalso; now apply (Hexp row Hrow)].
      assert (Hu : request_id_taken u (store w) = false) by (apply Hfresh; now left).
      pose proof (@processNewNetworks_commits _ IntervalMilliseconds DefaultCaExpiration
                                              now u w _ _ Htxn Hsel Hu Hrowexp) as Hc.
      pose proof (processNewNetworks_leaves IntervalMilliseconds DefaultCaExpiration
                                            now u w Htxn Hsel Hu Hrowexp) as Hleft.
      set (w1 := snd (intake now u false no_failure w)) in *.
      assert (Hreqs : CertificateRequests (store w1)
                      = CertificateRequests (store w)
                          ++ [vanCA_request now u (an_StartTime row) expire (an_Id row)])
        by (subst w1; rewrite Hc; reflexivity).
      assert (Htxn1 : txn w1 = None) by (subst w1; rewrite Hc; reflexivity).
      destruct (IH w1) as (H1 & H2 & H3 & H4); auto.
      * intros v Hv. apply request_id_taken_false. intros r Hr. rewrite Hreqs in Hr.
        apply in_app_or in Hr as [Hold|[<-|[]]].
        -- apply (proj1 (request_id_taken_false v (store w))); [|exact Hold].
           apply Hfresh. now right.
        -- cbn. intros ->. contradiction.
      * intros n Hn. rewrite Hleft in Hn. apply filter_In in Hn as [Hn _]. now apply Hexp.
      * rewrite Hleft.
        assert (Hlt : (List.length (filter (fun n => negb (an_Id n =? an_Id row)%string)
                                           (new_networks (store w)))
                       < List.length (new_networks (store w)))%nat)
          by (apply filter_length_lt with (x := row);
              [exact Hrow | now rewrite String.eqb_refl]).
        cbn in Hlen. lia.
      * split; [exact H1|]. split; [exact H2|]. split.
        -- intros n Hn. destruct (an_Id n =? an_Id row)%string eqn:Hid.
           ++ apply String.eqb_eq in Hid.
              exists (vanCA_request now u (an_StartTime row) expire (an_Id row)).
              split; [|split; [reflexivity | cbn; now rewrite Hid]].
              apply H4. rewrite Hreqs. apply in_or_app. right. now left.
           ++ apply H3. rewrite Hleft. apply filter_In. split; [exact Hn|].
              now rewrite Hid.
        -- intros r Hr. apply H4. rewrite Hreqs. apply in_or_app. now left.
Qed.

End RunsOfPasses.

(** ** More on the API server *)

Section ApiPaths.

Variable interval : Type.

Local Abbreviation configure aid host prt :=
  (fun p : BackboneAccessPoint =>
     if (ap_Id p =? aid)%string then set_access host prt p else p).

(** Whatever fails, [addHostToAccessPoint] commits nothing or the update of
    the referenced access point, and returns 1 in the second case. *)
Lemma addHostToAccessPoint_store_cases now fresh pool_fails fails bsid key host prt
      (w : World interval) :
  txn w = None ->
  store (snd (addHostToAccessPoint now fresh pool_fails fails bsid key host prt w)) = store w
  \/ (exists ref a,
         access_of_key key = Some ref
         /\ join_access ref bsid (store w) = [a]
         /\ fst (addHostToAccessPoint now fresh pool_fails fails bsid key host prt w) = Ok 1
         /\ store (snd (addHostToAccessPoint now fresh pool_fails fails bsid key host prt w))
            = with_BackboneAccessPoints
                (map (configure (access_ref a) host prt) (BackboneAccessPoints (store w)))
                (store w)).
Proof.
  intros Htxn. destruct w as [s tx le ti lo re]; cbn in Htxn; subst tx.
  destruct pool_fails; [now left|].
  unfold_units.
  branches; try (left; reflexivity); try congruence.
  all: right; eexists; eexists; split; [reflexivity|]; split; [eassumption|];
    split; reflexivity.
Qed.

Lemma addHostToAccessPoint_returns now fresh pool_fails fails bsid key host prt
      (w : World interval) (r : Z) :
  fst (addHostToAccessPoint now fresh pool_fails fails bsid key host prt w) = Ok r ->
  r = 0 \/ r = 1.
Proof.
  destruct w as [s tx le ti lo re]. destruct pool_fails; [discriminate|].
  unfold_units.
  branches; intros H; try discriminate; injection H as <-; tauto.
Qed.

Lemma addHostToAccessPoint_answers now fresh (fails : forall R : Type, Stmt interval R -> bool)
      bsid key host prt (w : World interval) :
  fails unit ROLLBACK = false ->
  exists r, fst (addHostToAccessPoint now fresh false fails bsid key host prt w) = Ok r.
Proof.
  intros Hrb. destruct w as [s tx le ti lo re]. unfold_units.
  branches; rewrite ?Hrb; cbn; try congruence; eauto.
Qed.

Lemma addHostToAccessPoint_leases_nothing now fresh pool_fails fails bsid key host prt
      (w : World interval) :
  leased (snd (addHostToAccessPoint now fresh pool_fails fails bsid key host prt w))
  = leased w.
Proof.
  destruct pool_fails; [now destruct w|]. apply addHostToAccessPoint_releases.
Qed.

Lemma configure_ids (aid : uuid) (host prt : option string) (l : list BackboneAccessPoint) :
  map ap_Id (map (configure aid host prt) l) = map ap_Id l.
Proof.
  rewrite map_map. apply map_ext. intros p. now destruct (ap_Id p =? aid)%string.
Qed.

(** X9.  Whatever fails, [addHostToAccessPoint] on a client with no
    transaction left open touches nothing but the referenced access point:
    every other table is as before, the access points keep their number,
    order and Ids, and an access point that is not as before has the given
    Hostname and Port and the Lifecycle 'new'. *)
Theorem addHostToAccessPoint_touches_one_access_point :
  forall now fresh pool_fails fails bsid key host prt (w : World interval),
    txn w = None ->
    let t' := store (snd (addHostToAccessPoint now fresh pool_fails fails bsid key host prt w))
    in
    ApplicationNetworks t' = ApplicationNetworks (store w)
    /\ CertificateRequests t' = CertificateRequests (store w)
    /\ TlsCertificates t' = TlsCertificates (store w)
    /\ MemberInvitations t' = MemberInvitations (store w)
    /\ InteriorSites t' = InteriorSites (store w)
    /\ map ap_Id (BackboneAccessPoints t') = map ap_Id (BackboneAccessPoints (store w))
    /\ (forall p, In p (BackboneAccessPoints t') ->
                  In p (BackboneAccessPoints (store w))
                  \/ (ap_Hostname p = host /\ ap_Port p = prt /\ ap_Lifecycle p = "new")).
Proof.
  intros now fresh pool_fails fails bsid key host prt w Htxn t'. subst t'.
  destruct (addHostToAccessPoint_store_cases now fresh pool_fails fails bsid key host prt
                                             w Htxn) as [H|[ref [a [_ [_ [_ H]]]]]];
    rewrite H.
  - repeat split; auto.
  - cbn. repeat split; auto using configure_ids.
    intros p Hp. apply in_map_iff in Hp as [q [<- Hq]].
    destruct (ap_Id q =? access_ref a)%string; [right; repeat split | now left].
Qed.

Local Abbreviation reconfigure aid host prt :=
  (fun row : AccessRow =>
     if (access_ref row =? aid)%string
     then mkAccessRow (access_ref row) host prt "new"
     else row).

Lemma access_rows_configure (i aid : uuid) (host prt : option string)
      (aps : list BackboneAccessPoint) :
  map (fun p => mkAccessRow i (ap_Hostname p) (ap_Port p) (ap_Lifecycle p))
      (filter (fun p => (ap_Id p =? i)%string) (map (configure aid host prt) aps))
  = map (reconfigure aid host prt)
        (map (fun p => mkAccessRow i (ap_Hostname p) (ap_Port p) (ap_Lifecycle p))
             (filter (fun p => (ap_Id p =? i)%string) aps)).
Proof.
  induction aps as [|p aps IH]; [reflexivity|].
  cbn [map filter].
  destruct (ap_Id p =? aid)%string eqn:Hp; cbn [ap_Id set_access].
  - destruct (ap_Id p =? i)%string eqn:Hi; [|exact IH].
    cbn [map access_ref]. apply String.eqb_eq in Hp, Hi.
    assert (Hia : (i =? aid)%string = true) by (apply String.eqb_eq; congruence).
    rewrite Hia. cbn. now rewrite IH.
  - destruct (ap_Id p =? i)%string eqn:Hi; [|exact IH].
    cbn [map access_ref]. apply String.eqb_eq in Hi.
    assert (Hia : (i =? aid)%string = false) by (rewrite <- Hi; exact Hp).
    rewrite Hia. now rewrite IH.
Qed.

(** The join after the update of an access point: the same rows, the rows
    of the updated access point with its new columns. *)
Lemma join_access_configure (ref : AccessRef) (bsid : string) (t : Tables interval)
      (aid : uuid) (host prt : option string) :
  join_access ref bsid
              (with_BackboneAccessPoints
                 (map (configure aid host prt) (BackboneAccessPoints t)) t)
  = map (reconfigure aid host prt) (join_access ref bsid t).
Proof.
  unfold join_access. cbn [InteriorSites BackboneAccessPoints with_BackboneAccessPoints].
  induction (InteriorSites t) as [|s sites IH]; [reflexivity|].
  cbn [flat_map]. rewrite map_app, <- IH. f_equal.
  destruct (is_Id s =? bsid)%string; [|reflexivity].
  destruct (access_column ref s) as [i|]; [|reflexivity].
  apply access_rows_configure.
Qed.

(** An access point that is not 'partial' is refused. *)
Lemma addHostToAccessPoint_refuses_configured now fresh
      (fails : forall R : Type, Stmt interval R -> bool) bsid key host prt
      (w : World interval) ref a :
  txn w = None ->
  fails unit ROLLBACK = false ->
  access_of_key key = Some ref ->
  join_access ref bsid (store w) = [a] ->
  lifecycle a <> "partial" ->
  fst (addHostToAccessPoint now fresh false fails bsid key host prt w) = Ok 0
  /\ store (snd (addHostToAccessPoint now fresh false fails bsid key host prt w)) = store w.
Proof.
  intros Htxn Hrb Hkey Hjoin Hlc.
  destruct w as [s tx le ti lo re]; cbn in Htxn, Hjoin; subst tx. cbn [store].
  apply String.eqb_neq in Hlc.
  unfold_units. cbn. rewrite Hkey. cbn.
  destruct (fails unit BEGIN); cbn; rewrite ?Hrb; cbn; [now split|].
  destruct (fails _ (SelectAccessPoint interval ref bsid)); cbn; rewrite ?Hrb; cbn;
    [now split|].
  rewrite Hjoin. cbn.
  destruct (truthy (hostname a)); cbn; rewrite ?Hrb; cbn; [now split|].
  rewrite Hlc. cbn. rewrite ?Hrb. cbn. now split.
Qed.

(** X10.  An access point is configured once.  After a call of
    [addHostToAccessPoint] that passed every check and returned 1, any
    further call for the same site and key, with any host and port,
    returns 0 and commits nothing (the access point is no longer
    'partial'), whatever else fails as long as the ROLLBACK is accepted. *)
Theorem addHostToAccessPoint_configures_once :
  forall now fresh now' fresh' (fails' : forall R : Type, Stmt interval R -> bool)
         bsid key host prt host' prt' (w : World interval) ref a,
    txn w = None ->
    access_of_key key = Some ref ->
    join_access ref bsid (store w) = [a] ->
    truthy (hostname a) = false ->
    lifecycle a = "partial" ->
    fails' unit ROLLBACK = false ->
    let first := addHostToAccessPoint now fresh false no_failure bsid key host prt w in
    let second := addHostToAccessPoint now' fresh' false fails' bsid key host' prt' (snd first)
    in
    fst first = Ok 1
    /\ fst second = Ok 0
    /\ store (snd second) = store (snd first).
Proof.
  intros now fresh now' fresh' fails' bsid key host prt host' prt' w ref a
         Htxn Hkey Hjoin Hhost Hlc Hrb first second. subst second first.
  rewrite (addHostToAccessPoint_accepts now fresh _ _ host prt w Htxn Hkey Hjoin Hhost Hlc).
  cbn [fst snd]. split; [reflexivity|].
  destruct w as [s tx le ti lo re]; cbn in Htxn, Hjoin; subst tx.
  apply addHostToAccessPoint_refuses_configured
    with (ref := ref) (a := mkAccessRow (access_ref a) host prt "new"); auto.
  - cbn. rewrite join_access_configure, Hjoin. cbn. now rewrite String.eqb_refl.
  - discriminate.
Qed.

(** [listInvitations] on every path. *)
Lemma listInvitations_paths now fresh pool_fails fails (w : World interval) :
  listInvitations now fresh pool_fails fails w
  = if pool_fails then (Throw (Error "no client available"), w)
    else if fails _ (SelectInvitations interval)
         then (Throw (QueryError "statement rejected"), with_leased (S (leased w)) w)
         else (Ok tt,
               with_res (ResEnd :: ResStatus 200
                                :: ResSend (map invitation_row (MemberInvitations (view w)))
                                :: res w) w).
Proof.
  destruct w as [s [t|] le ti lo re]; destruct pool_fails; try reflexivity;
    unfold_units; cbn; destruct (fails _ (SelectInvitations interval)); reflexivity.
Qed.

(** X11.  [listInvitations] reads and never writes: on every path the
    committed rows and the client's transaction are as before.  With a
    client from the pool, the client stays leased exactly when the store
    rejects the query; when the store accepts it, the response is the Id,
    Name, Lifecycle and Failure of the rows of MemberInvitations, in table
    order, then the status 200. *)
Theorem listInvitations_reads_only :
  forall now fresh pool_fails fails (w : World interval),
    let w' := snd (listInvitations now fresh pool_fails fails w) in
    store w' = store w
    /\ txn w' = txn w
    /\ (pool_fails = false ->
        (leased w' = S (leased w) <-> fails _ (SelectInvitations interval) = true)
        /\ (leased w' = leased w <-> fails _ (SelectInvitations interval) = false)
        /\ (fails _ (SelectInvitations interval) = false ->
            fst (listInvitations now fresh pool_fails fails w) = Ok tt
            /\ res w'
               = ResEnd :: ResStatus 200
                        :: ResSend (map (fun i => mkInvitationRow (mi_Id i) (mi_Name i)
                                                                  (mi_Lifecycle i)
                                                                  (mi_Failure i))
                                        (MemberInvitations (view w)))
                        :: res w)).
Proof.
  intros now fresh pool_fails fails w w'. subst w'.
  rewrite listInvitations_paths.
  destruct pool_fails; [repeat split; auto; discriminate|].
  destruct (fails _ (SelectInvitations interval)); cbn;
    repeat split; auto; try discriminate; try lia; intros; try lia.
Qed.

(** The loop of [postBackboneIngress]. *)
Lemma postBackboneIngress_loop_releases now fresh pool_fails_at
      (fails_at : nat -> forall R : Type, Stmt interval R -> bool)
      bsid (ingresses : list Ingress) :
  forall k count (w : World interval),
    leased (snd (postBackboneIngress_loop now fresh pool_fails_at fails_at k bsid ingresses
                                          count w))
    = leased w.
Proof.
  induction ingresses as [|i rest IH]; intros k count w; [reflexivity|].
  cbn [postBackboneIngress_loop].
  destruct (ingress_obj i) as [|host prt]; [reflexivity|].
  pose proof (addHostToAccessPoint_leases_nothing
                now fresh (pool_fails_at k) (fails_at k) bsid (ingress_key i)
                host prt w) as Hl.
  destruct (addHostToAccessPoint now fresh (pool_fails_at k) (fails_at k) bsid
                                 (ingress_key i) host prt w)
    as [[r|e] w1]; cbn [snd] in Hl |- *.
  - now rewrite IH.
  - exact Hl.
Qed.

Lemma postBackboneIngress_loop_counts now fresh pool_fails_at
      (fails_at : nat -> forall R : Type, Stmt interval R -> bool)
      bsid (ingresses : list Ingress) :
  forall k count (w : World interval) c,
    fst (postBackboneIngress_loop now fresh pool_fails_at fails_at k bsid ingresses count w)
    = Ok c ->
    count <= c <= count + Z.of_nat (List.length ingresses)
    /\ Forall has_members ingresses.
Proof.
  induction ingresses as [|i rest IH]; intros k count w c.
  - cbn. intros H. injection H as <-. split; [lia | constructor].
  - cbn [postBackboneIngress_loop]. unfold has_members at 1.
    destruct (ingress_obj i) as [|host prt] eqn:Hobj; [discriminate|].
    pose proof (@addHostToAccessPoint_returns
                  now fresh (pool_fails_at k) (fails_at k) bsid (ingress_key i)
                  host prt w) as Hr.
    destruct (addHostToAccessPoint now fresh (pool_fails_at k) (fails_at k) bsid
                                   (ingress_key i) host prt w)
      as [[r|e] w1]; cbn [fst] in Hr |- *; [|discriminate].
    intros H. apply IH in H as [H Hall]. specialize (Hr r eq_refl).
    split; [cbn [List.length]; lia|].
    constructor; [|exact Hall]. unfold has_members. rewrite Hobj. discriminate.
Qed.

Lemma postBackboneIngress_loop_answers now fresh pool_fails_at
      (fails_at : nat -> forall R : Type, Stmt interval R -> bool)
      bsid (ingresses : list Ingress) :
  (forall j, pool_fails_at j = false) ->
  (forall j, fails_at j unit ROLLBACK = false) ->
  Forall has_members ingresses ->
  forall k count (w : World interval),
  exists c,
    fst (postBackboneIngress_loop now fresh pool_fails_at fails_at k bsid ingresses count w)
    = Ok c.
Proof.
  intros Hpool Hrb Hall. induction Hall as [|i rest Hi Hall IH]; intros k count w.
  - cbn. eauto.
  - cbn [postBackboneIngress_loop]. unfold has_members in Hi.
    destruct (ingress_obj i) as [|host prt]; [congruence|].
    rewrite Hpool.
    destruct (addHostToAccessPoint_answers now fresh (fails_at k) bsid (ingress_key i)
                                           host prt w (Hrb k))
      as [r Hr].
    destruct (addHostToAccessPoint now fresh false (fails_at k) bsid
                                   (ingress_key i) host prt w)
      as [[r'|e] w1]; cbn [fst] in Hr; [|discriminate].
    apply IH.
Qed.

(** The loop over entries that all have members, followed by a null
    entry, ends where the loop over those entries ends, with the
    TypeError. *)
Lemma postBackboneIngress_loop_null now fresh pool_fails_at
      (fails_at : nat -> forall R : Type, Stmt interval R -> bool)
      bsid (before : list Ingress) key (rest : list Ingress) :
  (forall j, pool_fails_at j = false) ->
  (forall j, fails_at j unit ROLLBACK = false) ->
  Forall has_members before ->
  forall k count (w : World interval),
    postBackboneIngress_loop now fresh pool_fails_at fails_at k bsid
                             (before ++ mkIngress key NullObject :: rest) count w
    = (Throw (TypeError "Cannot read properties of null (reading 'host')"),
       snd (postBackboneIngress_loop now fresh pool_fails_at fails_at k bsid before
                                     count w)).
Proof.
  intros Hpool Hrb Hall. induction Hall as [|i l Hi Hall IH]; intros k count w.
  - reflexivity.
  - cbn [app postBackboneIngress_loop]. unfold has_members in Hi.
    destruct (ingress_obj i) as [|host prt]; [congruence|].
    rewrite Hpool.
    destruct (addHostToAccessPoint_answers now fresh (fails_at k) bsid (ingress_key i)
                                           host prt w (Hrb k))
      as [r Hr].
    destruct (addHostToAccessPoint now fresh false (fails_at k) bsid
                                   (ingress_key i) host prt w)
      as [[r'|e] w1]; cbn [fst] in Hr; [|discriminate].
    apply IH.
Qed.

(** X12.  The count of [postBackboneIngress], whatever fails during the
    calls of its loop: every client it acquires is handed back; when it
    ends with a count, either [fields.ingresses] is no object, the count
    is 0 and nothing was done, or it has entries, none of them null, and
    the count is between 0 and their number.  A null [fields.ingresses]
    throws a TypeError.  When the pool hands out clients and the store
    accepts the ROLLBACKs: over entries none of which is null it ends with
    a count; and at the first null entry it throws a TypeError, having
    made the calls of the entries before it and none after. *)
Theorem postBackboneIngress_loop_counts_accepted :
  forall now fresh pool_fails_at
         (fails_at : nat -> forall R : Type, Stmt interval R -> bool)
         bsid (ingresses : IngressesField) (w : World interval),
    let count := postBackboneIngress_count now fresh pool_fails_at fails_at bsid in
    leased (snd (count ingresses w)) = leased w
    /\ (forall c, fst (count ingresses w) = Ok c ->
          (ingresses = NotAnObject /\ c = 0 /\ snd (count ingresses w) = w)
          \/ (exists entries,
                 ingresses = Entries entries
                 /\ 0 <= c <= Z.of_nat (List.length entries)
                 /\ Forall has_members entries))
    /\ (ingresses = NullIngresses ->
        count ingresses w
        = (Throw (TypeError "Cannot convert undefined or null to object"), w))
    /\ ((forall j, pool_fails_at j = false) ->
        (forall j, fails_at j unit ROLLBACK = false) ->
        forall entries,
          ingresses = Entries entries ->
          (Forall has_members entries -> exists c, fst (count ingresses w) = Ok c)
          /\ (forall before key rest,
                 entries = before ++ mkIngress key NullObject :: rest ->
                 Forall has_members before ->
                 count ingresses w
                 = (Throw (TypeError "Cannot read properties of null (reading 'host')"),
                    snd (count (Entries before) w)))).
Proof.
  intros now fresh pool_fails_at fails_at bsid ingresses w count. subst count.
  split; [|split; [|split]].
  - destruct ingresses as [| |entries]; try reflexivity.
    apply postBackboneIngress_loop_releases.
  - intros c Hc. destruct ingresses as [| |entries]; cbn in Hc.
    + left. injection Hc as <-. repeat split.
    + discriminate.
    + right. exists entries. split; [reflexivity|].
      apply postBackboneIngress_loop_counts in Hc as [Hc Hall]. split; [lia | exact Hall].
  - intros ->. reflexivity.
  - intros Hpool Hrb entries ->. split.
    + intros Hall. now apply postBackboneIngress_loop_answers.
    + intros before key rest -> Hall. now apply postBackboneIngress_loop_null.
Qed.

(** Of two entries the one for the management access is accepted and
    counted, the one for the member access refused; and a null entry ends
    the loop with a TypeError: the entry before it was called (and
    refused), the entry after it is not called. *)
Example ingresses_with_a_null_entry :
  let w := Scenario.world (Scenario.tables [] []) in
  let loop := postBackboneIngress_loop Scenario.now "unused" (fun _ => false)
                                       (fun _ => @no_failure Z) 0 "bs-1" in
  fst (loop [mkIngress "skx-manage" (HostPort (Some "manage.example") (Some "45670"));
             mkIngress "skx-member" (HostPort (Some "member.example") (Some "45671"))]
            0 w)
  = Ok 1
  /\ loop [mkIngress "skx-peer" (HostPort (Some "peer.example") (Some "55671"));
           mkIngress "skx-member" NullObject;
           mkIngress "skx-manage" (HostPort (Some "manage.example") (Some "45670"))]
          0 w
     = (Throw (TypeError "Cannot read properties of null (reading 'host')"),
        snd (loop [mkIngress "skx-peer" (HostPort (Some "peer.example") (Some "55671"))]
                  0 w))
  /\ map ap_Hostname
         (BackboneAccessPoints
            (store (snd (loop [mkIngress "skx-peer" (HostPort (Some "peer.example")
                                                              (Some "55671"));
                               mkIngress "skx-member" NullObject;
                               mkIngress "skx-manage" (HostPort (Some "manage.example")
                                                                (Some "45670"))]
                              0 w))))
     = [None; Some "edge.example"; None].
Proof. repeat split; vm_compute; reflexivity. Qed.

End ApiPaths.

(** ** The queue of requests *)

Section Queue.

Variable interval : Type.
Variable IntervalMilliseconds : interval -> Z.
Variable DefaultCaExpiration : interval.

Local Abbreviation run := (run_passes IntervalMilliseconds DefaultCaExpiration).
Local Abbreviation mark id :=
  (fun x : CertificateRequest =>
     if (cr_Id x =? id)%string then set_Processing true x else x).

Lemma select_actionable_request_due now (t : Tables interval) :
  select_actionable_request now t = firstn 1 (order_by_created (due_requests now t)).
Proof. reflexivity. Qed.

Lemma order_by_created_nil (l : list CertificateRequest) :
  order_by_created l = [] -> l = [].
Proof.
  destruct l as [|r l]; [reflexivity|]. cbn.
  destruct (order_by_created l) as [|x l']; cbn; [discriminate|].
  destruct (created_le (cr_CreatedTime r) (cr_CreatedTime x)); discriminate.
Qed.

Lemma select_actionable_request_nil now (t : Tables interval) :
  select_actionable_request now t = [] -> due_requests now t = [].
Proof.
  rewrite select_actionable_request_due. intros H. apply order_by_created_nil.
  now destruct (order_by_created (due_requests now t)).
Qed.

Lemma select_actionable_request_one now (t : Tables interval) (r : CertificateRequest)
      (l : list CertificateRequest) :
  select_actionable_request now t = r :: l -> l = [].
Proof.
  intros H. pose proof (firstn_1_length (order_by_created (due_requests now t))) as Hlen.
  rewrite <- select_actionable_request_due, H in Hlen. cbn in Hlen.
  destruct l; [reflexivity | cbn in Hlen; lia].
Qed.

(** Marking the requests with one Id leaves as due the due requests with
    another Id. *)
Lemma due_requests_mark now (id : uuid) (l : list CertificateRequest) :
  filter (actionable now) (map (mark id) l)
  = filter (fun x => negb (cr_Id x =? id)%string) (filter (actionable now) l).
Proof.
  induction l as [|x l IH]; [reflexivity|]. cbn [map filter].
  destruct (cr_Id x =? id)%string eqn:Hid.
  - assert (Hm : actionable now (set_Processing true x) = false).
    { unfold actionable. cbn. destruct (cr_RequestTime x); [apply andb_false_r | reflexivity]. }
    rewrite Hm. destruct (actionable now x); cbn; rewrite ?Hid; cbn; exact IH.
  - destruct (actionable now x); cbn; rewrite ?Hid; cbn; now rewrite IH.
Qed.

Lemma fulfillment_passes_succ now (n : nat) (w : World interval) :
  run (fulfillment_passes interval now (S n)) w
  = run (fulfillment_passes interval now n)
        (snd (processCertificateRequests now "" false no_failure w)).
Proof. reflexivity. Qed.

(** X13.  The queue is drained.  After passes of the fulfillment worker
    that meet no failure, at one time, at least as many as there are due
    requests (RequestTime <= now, not Processing): no request is due at
    that time, every request that was due is in the table marked
    Processing, and the table has the same Ids in the same order. *)
Theorem fulfillment_drains_queue :
  forall now (n : nat) (w : World interval),
    txn w = None ->
    (List.length (due_requests now (store w)) <= n)%nat ->
    let w' := run (fulfillment_passes interval now n) w in
    due_requests now (store w') = []
    /\ txn w' = None
    /\ (forall r, In r (due_requests now (store w)) ->
                  In (set_Processing true r) (CertificateRequests (store w')))
    /\ map cr_Id (CertificateRequests (store w')) = map cr_Id (CertificateRequests (store w)).
Proof.
  intros now n. induction n as [|n IH]; intros w Htxn Hlen w'.
  - subst w'. cbn.
    assert (Hnil : due_requests now (store w) = []) by (apply length_zero_iff_nil; lia).
    rewrite Hnil. repeat split; auto. intros r [].
  - subst w'. rewrite fulfillment_passes_succ.
    destruct (select_actionable_request now (store w)) as [|r l] eqn:Hsel.
    + rewrite (processCertificateRequests_idle now "" w Htxn Hsel). cbn [snd].
      pose proof (select_actionable_request_nil _ _ Hsel) as Hnil.
      destruct (IH (mkWorld (store w) None (leased w)
                            ((CertificateRequestsWorker, 2000) :: timers w)
                            (logs w) (res w)))
        as (H1 & H2 & H3 & H4); cbn [store txn]; auto.
      rewrite Hnil. cbn. lia.
    + pose proof (select_actionable_request_one _ _ Hsel) as ->.
      assert (Hr : In r (due_requests now (store w))).
      { assert (H : In r (select_actionable_request now (store w)))
          by (rewrite Hsel; now left).
        apply select_actionable_request_In in H. now apply filter_In. }
      pose proof (processCertificateRequests_commits now "" w Htxn Hsel) as Hc.
      set (w1 := snd (processCertificateRequests now "" false no_failure w)) in *.
      assert (Hreqs : CertificateRequests (store w1)
                      = map (mark (cr_Id r)) (CertificateRequests (store w)))
        by (subst w1; rewrite Hc; reflexivity).
      assert (Htxn1 : txn w1 = None) by (subst w1; rewrite Hc; reflexivity).
      assert (Hdue : due_requests now (store w1)
                     = filter (fun x => negb (cr_Id x =? cr_Id r)%string)
                              (due_requests now (store w))).
      { unfold due_requests. rewrite Hreqs. apply due_requests_mark. }
      destruct (IH w1) as (H1 & H2 & H3 & H4); auto.
      * rewrite Hdue.
        assert (Hlt : (List.length (filter (fun x => negb (cr_Id x =? cr_Id r)%string)
                                           (due_requests now (store w)))
                       < List.length (due_requests now (store w)))%nat)
          by (apply filter_length_lt with (x := r);
              [exact Hr | now rewrite String.eqb_refl]).
        lia.
      * split; [exact H1|]. split; [exact H2|]. split.
        -- intros x Hx. destruct (cr_Id x =? cr_Id r)%string eqn:Hid.
           ++ assert (Hk : request_kept (set_Processing true x) w1).
              { split.
                - rewrite Hreqs. apply in_map_iff. exists x. rewrite Hid.
                  split; [reflexivity|]. now apply filter_In in Hx.
                - intros t Ht. congruence. }
              destruct (@run_passes_keep_request
                          _ IntervalMilliseconds DefaultCaExpiration
                          (fulfillment_passes interval now n) w1
                          (set_Processing true x) eq_refl Hk) as [H _].
              exact H.
           ++ apply H3. rewrite Hdue. apply filter_In. split; [exact Hx|].
              now rewrite Hid.
        -- rewrite H4, Hreqs, map_map. apply map_ext. intros x.
           now destruct (cr_Id x =? cr_Id r)%string.
Qed.

End Queue.

(** ** Runs of the further properties *)

Lemma processNewNetworks_commits_all_or_nothing_witness :
  store (snd (processNewNetworks seconds_to_ms (days 365) Scenario.now "req-1" false
                                 no_failure Scenario.intake_world))
  = store Scenario.intake_world
  \/ map (@an_OperStatus Z)
         (ApplicationNetworks
            (store (snd (processNewNetworks seconds_to_ms (days 365) Scenario.now "req-1"
                                            false no_failure Scenario.intake_world))))
     = ["cert_request_created"].
Proof.
  destruct (@processNewNetworks_commits_all_or_nothing
              Z seconds_to_ms (days 365) Scenario.now "req-1" false no_failure
              Scenario.intake_world eq_refl)
    as [H | (row & expire & Hsel & _ & _ & _ & Hs)].
  - left. exact H.
  - right. rewrite Hs. vm_compute in Hsel. injection Hsel as <-. reflexivity.
Defined.

Lemma processCertificateRequests_commits_all_or_nothing_witness :
  store (snd (processCertificateRequests Scenario.now "unused" false no_failure
                                         Scenario.single_world))
  = store Scenario.single_world
  \/ CertificateRequests
       (store (snd (processCertificateRequests Scenario.now "unused" false no_failure
                                               Scenario.single_world)))
     = [set_Processing true Scenario.r1].
Proof.
  destruct (@processCertificateRequests_commits_all_or_nothing
              Z Scenario.now "unused" false no_failure Scenario.single_world eq_refl)
    as [H | (r & Hsel & _ & Hs)].
  - left. exact H.
  - right. rewrite Hs. vm_compute in Hsel. injection Hsel as <-. reflexivity.
Defined.

Lemma processNewNetworks_shrinks_backlog_witness :
  new_networks
    (store (snd (processNewNetworks seconds_to_ms (days 365) Scenario.now "req-4" false
                                    no_failure Scenario.backlog_world)))
  = [Scenario.bounded_net]
  /\ (List.length
        (new_networks
           (store (snd (processNewNetworks seconds_to_ms (days 365) Scenario.now "req-4"
                                           false no_failure Scenario.backlog_world))))
      < List.length (new_networks (store Scenario.backlog_world)))%nat.
Proof.
  pose proof (@processNewNetworks_shrinks_backlog
                Z seconds_to_ms (days 365) Scenario.now "req-4" Scenario.backlog_world
                Scenario.open_net 1735603200000 eq_refl eq_refl eq_refl eq_refl) as H.
  cbv zeta in H. destruct H as (H1 & H2 & _).
  split; [|exact H2]. rewrite H1. reflexivity.
Defined.

Lemma inserted_request_waits_for_start_witness :
  exists r,
    select_actionable_request
      Scenario.t_2024_01_01
      (store (snd (processNewNetworks seconds_to_ms (days 365) Scenario.now "req-1" false
                                      no_failure Scenario.intake_world)))
    = [r].
Proof.
  pose proof (@inserted_request_waits_for_start
                Z seconds_to_ms (days 365) Scenario.now "req-1" Scenario.intake_world
                Scenario.open_net 1735603200000 eq_refl eq_refl eq_refl eq_refl) as H.
  cbv zeta in H. destruct H as (_ & H).
  exact (H Scenario.t_2024_01_01 Scenario.t_2024_01_01 eq_refl (Z.le_refl _)).
Defined.

Lemma claimed_request_stays_claimed_witness :
  In Scenario.claimed
     (CertificateRequests
        (store (run_passes seconds_to_ms (days 365) Timeline.passes
                           Scenario.backlog_world))).
Proof.
  exact (proj1 (@claimed_request_stays_claimed
                  Z seconds_to_ms (days 365) Timeline.passes Scenario.backlog_world
                  Scenario.claimed eq_refl (or_introl eq_refl) eq_refl)).
Defined.

Lemma intake_drains_backlog_witness :
  new_networks
    (store (run_passes seconds_to_ms (days 365)
                       (intake_passes Z Scenario.now Timeline.uuids)
                       Scenario.backlog_world))
  = []
  /\ In Scenario.claimed
        (CertificateRequests
           (store (run_passes seconds_to_ms (days 365)
                              (intake_passes Z Scenario.now Timeline.uuids)
                              Scenario.backlog_world))).
Proof.
  assert (Hnodup : NoDup Timeline.uuids).
  { repeat constructor; cbn; intros H; repeat destruct H as [H|H]; try discriminate H;
      exact H. }
  assert (Hfresh : forall u, In u Timeline.uuids ->
                             request_id_taken u (store Scenario.backlog_world) = false).
  { intros u Hu. cbn in Hu. repeat destruct Hu as [Hu|Hu]; try (subst u; reflexivity).
    destruct Hu. }
  assert (Hexp : forall n, In n (new_networks (store Scenario.backlog_world)) ->
                           ca_expiration seconds_to_ms (days 365) n <> None).
  { intros n Hn. vm_compute in Hn. repeat destruct Hn as [Hn|Hn];
      try (subst n; discriminate). destruct Hn. }
  assert (Hlen : (List.length (new_networks (store Scenario.backlog_world))
                  <= List.length Timeline.uuids)%nat)
    by (vm_compute; lia).
  pose proof (@intake_drains_backlog
                Z seconds_to_ms (days 365) Scenario.now Timeline.uuids
                Scenario.backlog_world eq_refl Hnodup Hfresh Hexp Hlen) as H.
  cbv zeta in H. destruct H as (H1 & _ & _ & H4).
  split; [exact H1|]. apply H4. left. reflexivity.
Defined.

Lemma addHostToAccessPoint_touches_one_access_point_witness :
  map ap_Id
      (BackboneAccessPoints
         (store (snd (addHostToAccessPoint Scenario.now "unused" false no_failure "bs-1"
                                           "skx-manage" (Some "manage.example")
                                           (Some "45670")
                                           (Scenario.world (Scenario.tables [] []))))))
  = ["ap-manage"; "ap-member"; "ap-peer"]
  /\ MemberInvitations
       (store (snd (addHostToAccessPoint Scenario.now "unused" false no_failure "bs-1"
                                         "skx-manage" (Some "manage.example")
                                         (Some "45670")
                                         (Scenario.world (Scenario.tables [] [])))))
     = [Scenario.invitation 2 0].
Proof.
  pose proof (@addHostToAccessPoint_touches_one_access_point
                Z Scenario.now "unused" false no_failure "bs-1" "skx-manage"
                (Some "manage.example") (Some "45670")
                (Scenario.world (Scenario.tables [] [])) eq_refl) as H.
  cbv zeta in H. destruct H as (_ & _ & _ & H4 & _ & H6 & _).
  split; [rewrite H6 | rewrite H4]; reflexivity.
Defined.

Lemma addHostToAccessPoint_configures_once_witness :
  fst (addHostToAccessPoint
         Scenario.now "unused" false fail_on_status_update "bs-1" "skx-manage"
         (Some "other.example") (Some "55671")
         (snd (addHostToAccessPoint Scenario.now "unused" false no_failure "bs-1"
                                    "skx-manage" (Some "manage.example") (Some "45670")
                                    (Scenario.world (Scenario.tables [] [])))))
  = Ok 0.
Proof.
  pose proof (@addHostToAccessPoint_configures_once
                Z Scenario.now "unused" Scenario.now "unused" fail_on_status_update
                "bs-1" "skx-manage" (Some "manage.example") (Some "45670")
                (Some "other.example") (Some "55671")
                (Scenario.world (Scenario.tables [] [])) ManagementAccess
                (mkAccessRow "ap-manage" None None "partial")
                eq_refl eq_refl eq_refl eq_refl eq_refl eq_refl) as H.
  cbv zeta in H. destruct H as (_ & H & _). exact H.
Defined.

Lemma fulfillment_drains_queue_witness :
  due_requests Scenario.now
               (store (run_passes seconds_to_ms (days 365)
                                  (fulfillment_passes Z Scenario.now 3)
                                  Scenario.queue_world))
  = []
  /\ In (set_Processing true Scenario.r3)
        (CertificateRequests
           (store (run_passes seconds_to_ms (days 365)
                              (fulfillment_passes Z Scenario.now 3)
                              Scenario.queue_world))).
Proof.
  assert (Hlen : (List.length (due_requests Scenario.now (store Scenario.queue_world))
                  <= 3)%nat)
    by (vm_compute; lia).
  pose proof (@fulfillment_drains_queue
                Z seconds_to_ms (days 365) Scenario.now 3 Scenario.queue_world
                eq_refl Hlen) as H.
  cbv zeta in H. destruct H as (H1 & _ & H3 & _).
  split; [exact H1|]. apply H3. vm_compute. left. reflexivity.
Defined.
